(** * Calendar agent: event model, interval analysis and meeting classifier

    A shallow embedding of [calendar_manager.py]: the [CalendarEvent]
    dataclass with its derived properties, and the three analysis routines
    of [CalendarManager] ([_find_free_blocks], [_count_back_to_back],
    [stack_rank_meetings]) together with [analyze_schedule]; then the code
    around them: the reading of the service's records, the requests sent to
    the service, the search by title, and the display of durations of
    [cal_cli.py].

    Conventions of the embedding.
    - A timezone-aware [datetime] is the instant it denotes, counted in
      microseconds (the resolution of Python's [datetime]) as a [Z];
      comparison and subtraction of aware datetimes work on instants.
    - A [timedelta] is a signed number of microseconds.
    - [timedelta.total_seconds()] and the division by 60 that follows it in
      the source produce floats; they are taken at their exact values, as
      rationals [Q]. (Binary64 agrees with the exact value in every test
      against the 15 and 30 minute thresholds, and in the truncation to
      whole minutes for spans of up to a century.)
    - A [str] is a [string] holding its UTF-8 bytes; the substring test
      [needle in haystack] on code points coincides with the one on UTF-8
      bytes.
    - A Python exception is [None] in the [option] monad. *)

From Stdlib Require Import ZArith QArith Qround Lia Bool String Ascii.
From Stdlib Require Import DecimalString DecimalZ.
From stdpp Require Import base tactics option list sorting gmap strings.

Local Open Scope Z_scope.

(** ** Time *)

Definition datetime := Z.
Definition timedelta := Z.

Definition usec_per_second : Z := 1000000.
Definition usec_per_minute : Z := 60 * usec_per_second.
Definition usec_per_hour : Z := 60 * usec_per_minute.
Definition usec_per_day : Z := 24 * usec_per_hour.

(** [a - b] on datetimes. *)
Definition dt_sub (a b : datetime) : timedelta := a - b.

(** [td.total_seconds()]. *)
Definition total_seconds (td : timedelta) : Q := td # 1000000.

(** [td.total_seconds() / 60], the recurring expression of the source. *)
Definition minutes_of (td : timedelta) : Q := (total_seconds td / 60)%Q.

(** [int(x)] on a float: truncation toward zero. *)
Definition int_of_float (x : Q) : Z := Z.quot (Qnum x) (Z.pos (Qden x)).

(** ** Events *)

Inductive EventStatus := ACCEPTED | DECLINED | TENTATIVE | NEEDS_ACTION.

Definition EventStatus_value (s : EventStatus) : string :=
  match s with
  | ACCEPTED => "accepted"
  | DECLINED => "declined"
  | TENTATIVE => "tentative"
  | NEEDS_ACTION => "needsAction"
  end.

(** An attendee record of the calendar service; carried around, never read
    by the analysis. *)
Definition Dict := list (string * string).

Record CalendarEvent := mkCalendarEvent {
  id : string;
  title : string;
  start : datetime;
  end_ : datetime;
  status : EventStatus;
  location : option string;
  description : option string;
  attendees : option (list Dict);
  has_meeting_link : bool
}.

(** [needle in haystack] for Python strings. *)
Fixpoint contains (needle haystack : string) : bool :=
  String.prefix needle haystack ||
  match haystack with
  | EmptyString => false
  | String _ rest => contains needle rest
  end.

Definition duration_minutes (e : CalendarEvent) : Z :=
  int_of_float (minutes_of (dt_sub (end_ e) (start e))).

Definition is_focus_block (e : CalendarEvent) : bool :=
  contains "Focus Block" (title e) || contains "🎯" (title e).

Definition is_commute (e : CalendarEvent) : bool :=
  contains "Commute" (title e) || contains "🚗" (title e).

(** ** Python built-ins used by the analysis *)

(** [l[i]]: a negative index counts from the end; out of range raises
    [IndexError]. *)
Definition getitem {A} (l : list A) (i : Z) : option A :=
  let n := Z.of_nat (length l) in
  let j := if i <? 0 then i + n else i in
  if (0 <=? j) && (j <? n) then l !! Z.to_nat j else None.

(** [range(n)]. *)
Definition range (n : Z) : list Z := map Z.of_nat (seq 0 (Z.to_nat n)).

(** [len(l)]. *)
Definition len {A} (l : list A) : Z := Z.of_nat (length l).

(** [for x in xs: body], threading the variables the body assigns; an
    exception raised by the body ends the loop. *)
Fixpoint for_ {St} (xs : list Z) (body : Z → St → option St) (s : St) : option St :=
  match xs with
  | [] => Some s
  | x :: xs' => s' ← body x s; for_ xs' body s'
  end.

(** [sorted(l, key=key)]: Python's sort is stable, so its result is the one
    of any stable sort; it is written here as insertion from the right, each
    element going in front of the first element whose key is not smaller. *)
Fixpoint insert_by {A} (key : A → Z) (x : A) (l : list A) : list A :=
  match l with
  | [] => [x]
  | y :: l' => if key x <=? key y then x :: l else y :: insert_by key x l'
  end.

Definition sorted {A} (l : list A) (key : A → Z) : list A :=
  foldr (insert_by key) [] l.

(** [x >= n] and [x < n] between a float and an int. *)
Definition float_ge (x : Q) (n : Z) : bool := Qle_bool (inject_Z n) x.
Definition float_lt (x : Q) (n : Z) : bool := negb (Qle_bool (inject_Z n) x).

(** ** The clock

    [IST] is [pytz.timezone('Asia/Kolkata')]; [datetime.now(IST)] carries the
    offset +05:30.  A reading of the clock is the instant it returns. *)

Definition IST_utcoffset : timedelta := 5 * usec_per_hour + 30 * usec_per_minute.

(** The calendar day, in IST, of an instant (days since the epoch). *)
Definition ist_date (t : datetime) : Z := (t + IST_utcoffset) / usec_per_day.

(** [t.replace(hour=h, minute=0, second=0, microsecond=0)] for an IST
    datetime [t]: same day, same offset, the given wall-clock time. *)
Definition replace_hour (t : datetime) (h : Z) : datetime :=
  ist_date t * usec_per_day + h * usec_per_hour - IST_utcoffset.

(** ** Interval analysis *)

Definition block := (datetime * datetime)%type.

(** [_find_free_blocks]; [now1] and [now2] are the two readings of
    [datetime.now(self.IST)], in the order the body takes them. *)
Definition _find_free_blocks (now1 now2 : datetime)
    (events : list CalendarEvent) (min_duration_minutes : Z)
    : option (list block) :=
  if bool_decide (events = []) then Some []
  else
    let events := sorted events start in
    let free_blocks : list block := [] in
    (* Check time before first event *)
    let work_start := replace_hour now1 9 in
    first ← getitem events 0;
    let free_blocks :=
      if work_start <? start first then
        let duration := minutes_of (dt_sub (start first) work_start) in
        if float_ge duration min_duration_minutes
        then free_blocks ++ [(work_start, start first)]
        else free_blocks
      else free_blocks in
    (* Check gaps between events *)
    free_blocks ← for_ (range (len events - 1)) (λ i free_blocks,
      ei ← getitem events i;
      ei1 ← getitem events (i + 1);
      let gap_start := end_ ei in
      let gap_end := start ei1 in
      let duration := minutes_of (dt_sub gap_end gap_start) in
      Some (if float_ge duration min_duration_minutes
            then free_blocks ++ [(gap_start, gap_end)]
            else free_blocks)) free_blocks;
    (* Check time after last event *)
    let work_end := replace_hour now2 22 in
    last ← getitem events (-1);
    let free_blocks :=
      if end_ last <? work_end then
        let duration := minutes_of (dt_sub work_end (end_ last)) in
        if float_ge duration min_duration_minutes
        then free_blocks ++ [(end_ last, work_end)]
        else free_blocks
      else free_blocks in
    Some free_blocks.

(** The default value of [min_duration_minutes]. *)
Definition default_min_duration_minutes : Z := 30.

(** [_count_back_to_back]. *)
Definition _count_back_to_back (events : list CalendarEvent) : option Z :=
  if len events <? 2 then Some 0
  else
    let events := sorted events start in
    let count := 0 in
    count ← for_ (range (len events - 1)) (λ i count,
      ei1 ← getitem events (i + 1);
      ei ← getitem events i;
      let gap := minutes_of (dt_sub (start ei1) (end_ ei)) in
      Some (if float_lt gap 15 then count + 1 else count)) count;
    Some count.

(** [sum(l)] and the filter of a list comprehension. *)
Definition sum (l : list Z) : Z := fold_left Z.add l 0.

Definition is_meeting (e : CalendarEvent) : bool :=
  negb (is_focus_block e) && negb (is_commute e).

(** The dictionary [analyze_schedule] returns, one field per key. *)
Record analysis := mkAnalysis {
  total_events : Z;
  total_meetings : Z;
  focus_hours : Q;
  meeting_hours : Q;
  free_blocks : list block;
  back_to_back_count : Z
}.

(** [analyze_schedule], from the point where the day's events have been
    fetched: [events] is what the calendar service returned for the day. *)
Definition analyze_schedule (now1 now2 : datetime)
    (events : list CalendarEvent) : option analysis :=
  let total_meetings := len (List.filter is_meeting events) in
  let total_focus_time :=
    sum (map duration_minutes (List.filter is_focus_block events)) in
  let total_meeting_time :=
    sum (map duration_minutes (List.filter is_meeting events)) in
  (* Find free blocks *)
  free_blocks ← _find_free_blocks now1 now2 events default_min_duration_minutes;
  back_to_back ← _count_back_to_back events;
  Some {| total_events := len events;
          total_meetings := total_meetings;
          focus_hours := inject_Z total_focus_time / 60;
          meeting_hours := inject_Z total_meeting_time / 60;
          free_blocks := free_blocks;
          back_to_back_count := back_to_back |}.

(** ** Meeting classifier *)

(** The dictionary [stack_rank_meetings] returns, one field per key. *)
Record ranking := mkRanking {
  critical : list CalendarEvent;
  important : list CalendarEvent;
  moderate : list CalendarEvent;
  cancelable : list CalendarEvent
}.

(** [any(word in s for word in words)]. *)
Definition any_in (words : list string) (s : string) : bool :=
  existsb (λ word, contains word s) words.

Definition critical_words : list string :=
  ["production"; "deploy"; "leads"; "epd"; "gtm"; "critical"; "urgent"]%string.
Definition important_words : list string :=
  ["daily"; "migration"; "customer"; "onboarding"; "1:1"; "weekly"]%string.
Definition moderate_words : list string :=
  ["sync"; "catch"; "check"]%string.

Section Classifier.

(** [str.lower()], a total function on strings. *)
Variable lower : string → string.

(** The body of the loop over [meetings]: one [append] to one of the four
    lists. *)
Definition rank_step (r : ranking) (meeting : CalendarEvent) : ranking :=
  let title_lower := lower (title meeting) in
  (* Critical indicators *)
  if any_in critical_words title_lower then
    {| critical := critical r ++ [meeting]; important := important r;
       moderate := moderate r; cancelable := cancelable r |}
  (* Important indicators *)
  else if any_in important_words title_lower then
    {| critical := critical r; important := important r ++ [meeting];
       moderate := moderate r; cancelable := cancelable r |}
  (* Generic sync indicators *)
  else if any_in moderate_words title_lower then
    {| critical := critical r; important := important r;
       moderate := moderate r ++ [meeting]; cancelable := cancelable r |}
  (* Short meetings or lists *)
  else if (duration_minutes meeting <=? 30) || contains "list" title_lower then
    {| critical := critical r; important := important r;
       moderate := moderate r; cancelable := cancelable r ++ [meeting] |}
  else
    {| critical := critical r; important := important r;
       moderate := moderate r ++ [meeting]; cancelable := cancelable r |}.

(** [stack_rank_meetings(events)] for a given list of events (when called
    without one, the source first fetches today's list). *)
Definition stack_rank_meetings (events : list CalendarEvent) : ranking :=
  (* Filter out focus blocks and commute *)
  let meetings := List.filter is_meeting events in
  fold_left rank_step meetings
    {| critical := []; important := []; moderate := []; cancelable := [] |}.

End Classifier.

(** [str.lower()] on ASCII text, for running the classifier on examples. *)
Definition ascii_lower_char (c : ascii) : ascii :=
  let n := nat_of_ascii c in
  if (65 <=? n)%nat && (n <=? 90)%nat then ascii_of_nat (n + 32) else c.

Fixpoint ascii_lower (s : string) : string :=
  match s with
  | EmptyString => EmptyString
  | String c rest => String (ascii_lower_char c) (ascii_lower rest)
  end.

(** ** Construction of events

    [CalendarEvent] is a plain dataclass: the generated [__init__] stores its
    arguments and has no validation hook.  [InvalidInterval] is the error the
    specification names for [end < start]. *)

Inductive construction_error := InvalidInterval.

Definition CalendarEvent_init (id title : string) (start end_ : datetime)
    (status : EventStatus) (location description : option string)
    (attendees : option (list Dict)) (has_meeting_link : bool)
    : construction_error + CalendarEvent :=
  inr (mkCalendarEvent id title start end_ status location description
         attendees has_meeting_link).

(** Construction from the required fields, the optional ones at their
    defaults. *)
Definition new_event (id title : string) (start end_ : datetime)
    : construction_error + CalendarEvent :=
  CalendarEvent_init id title start end_ ACCEPTED None None None false.

(** * Further code of the repository

    The parts of [calendar_manager.py] and [cal_cli.py] around the analysis:
    the reading of the service's records, the requests sent to it, the search
    by title and the display of durations.  A record of the calendar service
    is a JSON value; a call to the service is a parameter, with [None] for a
    call that raises. *)

(** ** JSON values and Python dictionaries *)

(** A value of a record as Python holds it: [None], a [bool], an [int], a
    [str], a [list], a [dict] with string keys. *)
#[warnings="-register-all"]
Inductive json :=
  | JNull
  | JBool (b : bool)
  | JNum (n : Z)
  | JStr (s : string)
  | JList (l : list json)
  | JDict (d : gmap string json).

(** [bool(v)]. *)
Definition truthy (v : json) : bool :=
  match v with
  | JNull => false
  | JBool b => b
  | JNum n => negb (n =? 0)
  | JStr s => negb (String.eqb s "")
  | JList l => match l with [] => false | _ => true end
  | JDict d => match map_to_list d with [] => false | _ => true end
  end.

(** [v.get(key, dflt)]: a method of dictionaries only ([AttributeError] on
    the other values met here). *)
Definition dict_get (v : json) (key : string) (dflt : json) : option json :=
  match v with
  | JDict d => Some (default dflt (d !! key))
  | _ => None
  end.

(** The values [for x in v] goes through: the elements of a list, the
    characters of a string, the keys of a dictionary; [TypeError] on the
    rest. *)
Definition py_iter (v : json) : option (list json) :=
  match v with
  | JList l => Some l
  | JStr s => Some (map (λ c, JStr (String c EmptyString)) (list_ascii_of_string s))
  | JDict d => Some (map (λ kv, JStr kv.1) (map_to_list d))
  | _ => None
  end.

(** [str(n)] for an integer. *)
Definition str (n : Z) : string := NilZero.string_of_int (Z.to_int n).

(** ** Response status of the user *)

Instance EventStatus_eq_dec : EqDecision EventStatus.
Proof. solve_decision. Defined.

(** [EventStatus(v)]: the member whose value is [v], [ValueError] when there
    is none. *)
Definition EventStatus_of_value (v : json) : option EventStatus :=
  match v with
  | JStr s =>
      if String.eqb s "accepted" then Some ACCEPTED
      else if String.eqb s "declined" then Some DECLINED
      else if String.eqb s "tentative" then Some TENTATIVE
      else if String.eqb s "needsAction" then Some NEEDS_ACTION
      else None
  | _ => None
  end.

(** The loop of [_parse_event] over the attendees: the status of the first
    attendee marked [self], [status] when the loop ends without one. *)
Fixpoint _parse_event_status_loop (attendees : list json) (status : EventStatus)
    : option EventStatus :=
  match attendees with
  | [] => Some status
  | attendee :: rest =>
      self ← dict_get attendee "self" (JBool false);
      if truthy self then
        response ← dict_get attendee "responseStatus" (JStr "accepted");
        EventStatus_of_value response
      else _parse_event_status_loop rest status
  end.

(** The part of [_parse_event] that finds the user's own response status in
    a record of the service. *)
Definition _parse_event_status (event_data : json) : option EventStatus :=
  let status := ACCEPTED in
  attendees ← dict_get event_data "attendees" (JList []);
  items ← py_iter attendees;
  _parse_event_status_loop items status.

(** The loop of [update_event_status] over the attendees: the first attendee
    marked [self] gets the new status, the loop stops there. *)
Fixpoint update_attendees (attendees : list json) (new_status : EventStatus)
    : option (list json) :=
  match attendees with
  | [] => Some []
  | attendee :: rest =>
      self ← dict_get attendee "self" (JBool false);
      if truthy self then
        match attendee with
        | JDict d =>
            Some (JDict (<["responseStatus" := JStr (EventStatus_value new_status)]> d)
                  :: rest)
        | _ => None
        end
      else
        rest' ← update_attendees rest new_status;
        Some (attendee :: rest')
  end.

(** ** The calendar service *)

Inductive EventColor := BLUE | GRAY | RED | GREEN | YELLOW.

Definition EventColor_value (c : EventColor) : string :=
  match c with
  | BLUE => "9"
  | GRAY => "8"
  | RED => "11"
  | GREEN => "10"
  | YELLOW => "5"
  end.

(** [s or dflt] for an optional string. *)
Definition str_or (s : option string) (dflt : string) : string :=
  match s with
  | Some s' => if String.eqb s' "" then dflt else s'
  | None => dflt
  end.

(** [if s:] for an optional string. *)
Definition str_truthy (s : option string) : bool :=
  match s with
  | Some s' => negb (String.eqb s' "")
  | None => false
  end.

Section Service.

(** [service.events().get(calendarId='primary', eventId=...).execute()]. *)
Variable events_get : string → option json.

(** [service.events().patch(calendarId='primary', eventId=..., body=...,
    sendUpdates=...).execute()]. *)
Variable events_patch : string → json → string → option json.

(** [service.events().insert(calendarId='primary', body=...).execute()]. *)
Variable events_insert : json → option json.

(** [self._parse_event], the reading of a record of the service. *)
Variable _parse_event : json → option CalendarEvent.

(** [dt.isoformat()]. *)
Variable isoformat : datetime → string.

(** [update_event_status]: [True] when the patch went through, [False] when
    anything raised. *)
Definition update_event_status (event_id : string) (new_status : EventStatus)
    (send_notification : bool) : bool :=
  let attempt :=
    event ← events_get event_id;
    attendees ← dict_get event "attendees" (JList []);
    items ← py_iter attendees;
    items' ← update_attendees items new_status;
    (* the dictionaries of a list are updated in place; a value that is
       not a list is sent back as it is *)
    let attendees' := match attendees with JList _ => JList items' | _ => attendees end in
    _ ← events_patch event_id (JDict {["attendees" := attendees']})
          (if send_notification then "all" else "none");
    Some true in
  default false attempt.

(** [decline_event]. *)
Definition decline_event (event_id : string) (send_notification : bool) : bool :=
  update_event_status event_id DECLINED send_notification.

(** The request body [create_event] builds. *)
Definition create_event_body (title : string) (start end_ : datetime)
    (description location : option string) (color : option EventColor)
    (reminder_minutes : Z) : gmap string json :=
  let event_body : gmap string json :=
    <["summary" := JStr title]>
    (<["start" := JDict (<["dateTime" := JStr (isoformat start)]>
                         (<["timeZone" := JStr "Asia/Kolkata"]> ∅))]>
    (<["end" := JDict (<["dateTime" := JStr (isoformat end_)]>
                       (<["timeZone" := JStr "Asia/Kolkata"]> ∅))]>
    (<["reminders" :=
         JDict (<["useDefault" := JBool false]>
                (<["overrides" :=
                     JList [JDict (<["method" := JStr "popup"]>
                                   (<["minutes" := JNum reminder_minutes]> ∅))]]> ∅))]>
     ∅))) in
  let event_body :=
    if str_truthy description
    then <["description" := JStr (default EmptyString description)]> event_body
    else event_body in
  let event_body :=
    if str_truthy location
    then <["location" := JStr (default EmptyString location)]> event_body
    else event_body in
  let event_body :=
    match color with
    | Some c => <["colorId" := JStr (EventColor_value c)]> event_body
    | None => event_body
    end in
  event_body.

(** [create_event]. *)
Definition create_event (title : string) (start end_ : datetime)
    (description location : option string) (color : option EventColor)
    (reminder_minutes : Z) : option CalendarEvent :=
  let event_body :=
    create_event_body title start end_ description location color reminder_minutes in
  created_event ← events_insert (JDict event_body);
  _parse_event created_event.

(** [create_focus_block]. *)
Definition create_focus_block (title : string) (start end_ : datetime)
    (description : option string) : option CalendarEvent :=
  create_event ("🎯 Focus Block: " ++ title) start end_
    (Some (str_or description ("Deep work session on " ++ title)))
    None (Some BLUE) 5.

(** [create_commute_block]; [description] defaults to ["Travel time"]. *)
Definition create_commute_block (start end_ : datetime) (description : option string)
    : option CalendarEvent :=
  create_event "🚗 Commute" start end_ description None (Some GRAY) 10.

(** The loop of [get_events_in_range] over the items of the service's
    answer. *)
Fixpoint get_events_in_range_loop (items : list json) (include_declined : bool)
    (events : list CalendarEvent) : option (list CalendarEvent) :=
  match items with
  | [] => Some events
  | event_data :: rest =>
      event ← _parse_event event_data;
      let events :=
        if include_declined || negb (bool_decide (status event = DECLINED))
        then events ++ [event] else events in
      get_events_in_range_loop rest include_declined events
  end.

(** [get_events_in_range], from the answer [events_result] of the service's
    [list] call on. *)
Definition get_events_in_range (events_result : json) (include_declined : bool)
    : option (list CalendarEvent) :=
  let events := [] in
  items ← dict_get events_result "items" (JList []);
  items ← py_iter items;
  get_events_in_range_loop items include_declined events.

End Service.

(** ** Rescheduling *)

(** A line break, ['\n']. *)
Definition newline : string := String (ascii_of_nat 10) EmptyString.

(** [event[key]['dateTime'] = value]: [KeyError] without the key,
    [TypeError] when what is stored under it is not a dictionary. *)
Definition set_dateTime (event : gmap string json) (key value : string)
    : option (gmap string json) :=
  match event !! key with
  | Some (JDict d) => Some (<[key := JDict (<["dateTime" := JStr value]> d)]> event)
  | _ => None
  end.

Section Reschedule.

(** [service.events().get(...).execute()] and
    [service.events().update(..., body=..., sendUpdates=...).execute()]. *)
Variable events_get : string → option json.
Variable events_update : string → json → string → option json.

(** [self._parse_event]. *)
Variable _parse_event : json → option CalendarEvent.

(** [dt.isoformat()], and the text an f-string puts for a value. *)
Variable isoformat : datetime → string.
Variable format_value : json → string.

(** The record [reschedule_event] sends back: the fetched record with its
    two times replaced and, when a message is given, its description
    headed by the message. *)
Definition reschedule_event_body (event : json) (new_start new_end : datetime)
    (message : option string) : option (gmap string json) :=
  match event with
  | JDict event =>
      event ← set_dateTime event "start" (isoformat new_start);
      event ← set_dateTime event "end" (isoformat new_end);
      if str_truthy message then
        let message := default EmptyString message in
        let current_desc := default (JStr "") (event !! "description") in
        Some (<["description" :=
                  JStr (if truthy current_desc
                        then "Rescheduled: " ++ message ++ newline ++ newline
                             ++ format_value current_desc
                        else "Rescheduled: " ++ message)]> event)
      else Some event
  | _ => None
  end.

(** [reschedule_event]; nothing is caught here, a failing call of the
    service fails the whole. *)
Definition reschedule_event (event_id : string) (new_start new_end : datetime)
    (message : option string) (send_notification : bool) : option CalendarEvent :=
  event ← events_get event_id;
  body ← reschedule_event_body event new_start new_end message;
  updated_event ← events_update event_id (JDict body)
                    (if send_notification then "all" else "none");
  _parse_event updated_event.

End Reschedule.

(** ** Search by title *)

Section Search.

(** [str.lower()]. *)
Variable lower : string → string.

(** [find_event_by_title], on the events fetched for the day. *)
Fixpoint find_event_by_title (title_substring : string)
    (events : list CalendarEvent) : option CalendarEvent :=
  match events with
  | [] => None
  | event :: rest =>
      if contains (lower title_substring) (lower (title event)) then Some event
      else find_event_by_title title_substring rest
  end.

End Search.

(** ** Display of durations (cal_cli.py) *)

(** [format_duration]; [//] and [%] round toward minus infinity. *)
Definition format_duration (minutes : Z) : string :=
  let hours := minutes / 60 in
  let mins := minutes mod 60 in
  if 0 <? hours then
    if 0 <? mins then (str hours ++ "h " ++ str mins ++ "m")%string
    else (str hours ++ "h")%string
  else (str mins ++ "m")%string.

(** The duration [cmd_analyze] displays for a free block. *)
Definition displayed_minutes (b : block) : Z :=
  int_of_float (minutes_of (dt_sub b.2 b.1)).

(** * Vocabulary of the statements *)

(** ** Lists *)

(** The pairs [(l[i], l[i+1])], in order. *)
Fixpoint adjacent_pairs {A} (l : list A) : list (A * A) :=
  match l with
  | a :: (b :: _) as tl => (a, b) :: adjacent_pairs tl
  | _ => []
  end.

(** The order a sort by [key] aims at. *)
Definition key_le {A} (key : A → Z) (a b : A) : Prop := key a <= key b.

(** ** What the interval analysis computes

    Both routines look at the events only through their time spans, taken in
    sorted order: [free_blocks_of] and [count_of] are the two results as
    functions of the sorted spans and of the workday window. *)

Definition span (e : CalendarEvent) : datetime * datetime := (start e, end_ e).

Definition before_block (work_start : datetime) (m : Z)
    (first : datetime * datetime) : list block :=
  if (work_start <? first.1) && (m * usec_per_minute <=? first.1 - work_start)
  then [(work_start, first.1)] else [].

Definition gap_block (m : Z)
    (p : (datetime * datetime) * (datetime * datetime)) : list block :=
  if m * usec_per_minute <=? p.2.1 - p.1.2 then [(p.1.2, p.2.1)] else [].

Definition after_block (work_end : datetime) (m : Z)
    (last : datetime * datetime) : list block :=
  if (last.2 <? work_end) && (m * usec_per_minute <=? work_end - last.2)
  then [(last.2, work_end)] else [].

Definition free_blocks_of (work_start work_end : datetime) (m : Z)
    (spans : list (datetime * datetime)) : list block :=
  match head spans, last spans with
  | Some f, Some l =>
      before_block work_start m f
      ++ flat_map (gap_block m) (adjacent_pairs spans)
      ++ after_block work_end m l
  | _, _ => []
  end.

Definition close_spans (p : (datetime * datetime) * (datetime * datetime)) : bool :=
  p.2.1 - p.1.2 <? 15 * usec_per_minute.

Definition count_of (spans : list (datetime * datetime)) : Z :=
  len (List.filter close_spans (adjacent_pairs spans)).

(** ** Free blocks *)

(** In order of start time. *)
Definition sorted_by_start (events : list CalendarEvent) : Prop :=
  Sorted (key_le start) events.

(** No event starts before an earlier one of the list has ended: every gap
    [next.start - current.end], adjacent or not, is non-negative (a negative
    gap is what the specification calls an overlap). *)
Definition non_overlapping (events : list CalendarEvent) : Prop :=
  StronglySorted (λ a b, end_ a <= start b) events.

(** The event's span is an interval: it does not end before it starts. *)
Definition valid_span (e : CalendarEvent) : Prop := start e <= end_ e.




(** ** Back-to-back pairs *)

(** The gap of a pair of events, [next.start - current.end]. *)
Definition gap (current next : CalendarEvent) : timedelta :=
  dt_sub (start next) (end_ current).

(** The count as the specification words it: the adjacent pairs of the
    events sorted by start whose gap is under 15 minutes, a negative gap
    included. *)
Definition back_to_back_pairs (events : list CalendarEvent)
    : list (CalendarEvent * CalendarEvent) :=
  List.filter (λ p, gap p.1 p.2 <? 15 * usec_per_minute)
    (adjacent_pairs (sorted events start)).

Definition back_to_back_spec (events : list CalendarEvent) : Z :=
  len (back_to_back_pairs events).

(** ** Tiers *)

(** The four keys of the dictionary [stack_rank_meetings] returns, and the
    list stored under a key. *)
Inductive tier := Critical | Important | Moderate | Cancelable.

Instance tier_eq_dec : EqDecision tier.
Proof. solve_decision. Defined.

Definition tier_key (t : tier) : string :=
  match t with
  | Critical => "critical"
  | Important => "important"
  | Moderate => "moderate"
  | Cancelable => "cancelable"
  end.

Definition get_tier (r : ranking) (t : tier) : list CalendarEvent :=
  match t with
  | Critical => critical r
  | Important => important r
  | Moderate => moderate r
  | Cancelable => cancelable r
  end.

(** The branch the loop body of [stack_rank_meetings] takes for a meeting,
    [lower] being [str.lower()]. *)
Definition tier_of (lower : string → string) (meeting : CalendarEvent) : tier :=
  let title_lower := lower (title meeting) in
  if any_in critical_words title_lower then Critical
  else if any_in important_words title_lower then Important
  else if any_in moderate_words title_lower then Moderate
  else if (duration_minutes meeting <=? 30) || contains "list" title_lower
  then Cancelable
  else Moderate.

(** ** Rounding *)



(** ** Concrete days

    Wall-clock time [h:m] in IST on the day numbered [day] (day 20000 is
    4 October 2024), and an event with the optional fields at their
    defaults. *)

Definition ist (day h m : Z) : datetime :=
  day * usec_per_day + h * usec_per_hour + m * usec_per_minute - IST_utcoffset.

Definition ev (title : string) (start end_ : datetime) : CalendarEvent :=
  mkCalendarEvent "evt" title start end_ ACCEPTED None None None false.

Definition standup_day : list CalendarEvent :=
  [ev "Daily Standup" (ist 20000 9 0) (ist 20000 10 0);
   ev "Production Incident Review" (ist 20000 10 5) (ist 20000 11 0);
   ev "Team Sync" (ist 20000 11 0) (ist 20000 11 30)].

Definition lunch : CalendarEvent := ev "Lunch" (ist 20000 10 0) (ist 20000 11 0).

Definition short_call : CalendarEvent := ev "Call" (ist 20000 10 0) (ist 20000 10 10).
Definition short_call_twin : CalendarEvent :=
  ev "Call (copy)" (ist 20000 10 0) (ist 20000 10 10).
Definition workshop : CalendarEvent := ev "Workshop" (ist 20000 10 0) (ist 20000 12 0).
Definition review : CalendarEvent := ev "Review" (ist 20000 12 10) (ist 20000 13 0).

Definition quick_list_review : CalendarEvent :=
  ev "Quick List Review" (ist 20000 14 0) (ist 20000 15 0).

(** ** Order of blocks *)

(** Each block ends before the next one of the list begins. *)
Definition chronological (blocks : list block) : Prop :=
  StronglySorted (λ b b' : block, b.2 <= b'.1) blocks.

(** Events that start together end together. *)
Definition same_start_same_end (events : list CalendarEvent) : Prop :=
  ∀ a b, a ∈ events → b ∈ events → start a = start b → end_ a = end_ b.

(** ** Decimal strings *)

Definition is_digit (c : ascii) : bool :=
  (48 <=? nat_of_ascii c)%nat && (nat_of_ascii c <=? 57)%nat.

Fixpoint all_digits (s : string) : bool :=
  match s with
  | EmptyString => true
  | String c rest => is_digit c && all_digits rest
  end.

(** ** Attendees *)

(** The attendee is the user: [attendee.get('self', False)] holds. *)
Definition marked_self (attendee : json) : bool :=
  match dict_get attendee "self" (JBool false) with
  | Some v => truthy v
  | None => false
  end.

(** The event is kept by [get_events_in_range] without declined events. *)
Definition not_declined (e : CalendarEvent) : bool :=
  negb (bool_decide (status e = DECLINED)).

(** Two attendees for the examples: a guest, and the user. *)
Definition guest : json :=
  JDict (<["email" := JStr "guest@example.com"]>
         (<["responseStatus" := JStr "accepted"]> ∅)).

Definition myself : json :=
  JDict (<["email" := JStr "me@example.com"]>
         (<["self" := JBool true]>
          (<["responseStatus" := JStr "needsAction"]> ∅))).

(** A record of the service for the examples, the same record moved with
    a message, and the text of a JSON string. *)
Definition sync_record : gmap string json :=
  <["summary" := JStr "Team Sync"]>
  (<["description" := JStr "Agenda"]>
  (<["start" := JDict (<["dateTime" := JStr "2024-10-04T11:00:00+05:30"]>
                       (<["timeZone" := JStr "Asia/Kolkata"]> ∅))]>
  (<["end" := JDict (<["dateTime" := JStr "2024-10-04T11:30:00+05:30"]>
                     (<["timeZone" := JStr "Asia/Kolkata"]> ∅))]> ∅))).

Definition sync_record_moved : gmap string json :=
  <["summary" := JStr "Team Sync"]>
  (<["description" :=
       JStr ("Rescheduled: moved" ++ newline ++ newline ++ "Agenda")]>
  (<["start" := JDict (<["dateTime" := JStr "10"]>
                       (<["timeZone" := JStr "Asia/Kolkata"]> ∅))]>
  (<["end" := JDict (<["dateTime" := JStr "20"]>
                     (<["timeZone" := JStr "Asia/Kolkata"]> ∅))]> ∅))).

Definition text_of (v : json) : string :=
  match v with JStr s => s | _ => EmptyString end.

(** * Properties *)

(** ** Floats of minutes against integer thresholds *)

Lemma minutes_of_unfold td : minutes_of td = (td * 1) # 60000000.
Proof. reflexivity. Qed.

Lemma float_ge_minutes td n :
  float_ge (minutes_of td) n = (n * usec_per_minute <=? td).
Proof.
  unfold float_ge, Qle_bool. rewrite minutes_of_unfold. cbn [Qnum Qden inject_Z].
  unfold usec_per_minute, usec_per_second.
  apply eq_true_iff_eq. rewrite !Z.leb_le. lia.
Qed.

Lemma float_lt_minutes td n :
  float_lt (minutes_of td) n = (td <? n * usec_per_minute).
Proof.
  unfold float_lt. fold (float_ge (minutes_of td) n).
  rewrite float_ge_minutes. apply eq_true_iff_eq.
  rewrite negb_true_iff, Z.leb_gt, Z.ltb_lt. tauto.
Qed.

Lemma int_of_minutes td : int_of_float (minutes_of td) = Z.quot td usec_per_minute.
Proof.
  unfold int_of_float. rewrite minutes_of_unfold. cbn [Qnum Qden].
  rewrite Z.mul_1_r. reflexivity.
Qed.

(** ** Indexing and loops *)

Lemma getitem_nat {A} (l : list A) (i : nat) : getitem l (Z.of_nat i) = l !! i.
Proof.
  unfold getitem. destruct (Z.ltb_spec (Z.of_nat i) 0); [lia|].
  rewrite Nat2Z.id.
  destruct (Z.leb_spec 0 (Z.of_nat i)); [|lia]. cbn.
  destruct (Z.ltb_spec (Z.of_nat i) (Z.of_nat (length l))); [done|].
  symmetry. apply lookup_ge_None. lia.
Qed.

Lemma getitem_succ {A} (l : list A) (i : nat) : getitem l (Z.of_nat i + 1) = l !! S i.
Proof. rewrite <- getitem_nat. f_equal. lia. Qed.

Lemma getitem_first {A} (l : list A) : getitem l 0 = head l.
Proof. change 0 with (Z.of_nat 0). rewrite getitem_nat. by destruct l. Qed.

Lemma getitem_last {A} (l : list A) : getitem l (-1) = last l.
Proof.
  unfold getitem. cbn [Z.ltb Z.compare].
  destruct l as [|x l]; [done|].
  rewrite last_lookup.
  replace (-1 + Z.of_nat (length (x :: l))) with (Z.of_nat (length l)) by (cbn [length]; lia).
  destruct (Z.leb_spec 0 (Z.of_nat (length l))); [|lia].
  destruct (Z.ltb_spec (Z.of_nat (length l)) (Z.of_nat (length (x :: l))));
    [|cbn [length] in *; lia].
  cbn [andb]. rewrite Nat2Z.id. done.
Qed.

Lemma adjacent_pairs_lookup {A} (l : list A) (i : nat) :
  adjacent_pairs l !! i = a ← l !! i; b ← l !! S i; Some (a, b).
Proof.
  revert i. induction l as [|a [|b tl] IH]; intros i; [done| |].
  - destruct i; [done|]. cbn. by destruct (_ !! _).
  - destruct i as [|i]; [done|]. cbn [adjacent_pairs]. rewrite !lookup_cons. apply IH.
Qed.

Lemma adjacent_pairs_map {A B} (f : A → B) (l : list A) :
  adjacent_pairs (map f l) = map (λ p, (f p.1, f p.2)) (adjacent_pairs l).
Proof.
  induction l as [|a [|b tl] IH]; [done..|].
  cbn [map adjacent_pairs] in *. by rewrite IH.
Qed.

Lemma adjacent_pairs_app {A} (l1 l2 : list A) a b :
  adjacent_pairs (l1 ++ a :: b :: l2)
  = adjacent_pairs (l1 ++ [a]) ++ (a, b) :: adjacent_pairs (b :: l2).
Proof.
  induction l1 as [|x [|y l1] IH]; [done..|].
  change (adjacent_pairs ((x :: y :: l1) ++ a :: b :: l2))
    with ((x, y) :: adjacent_pairs ((y :: l1) ++ a :: b :: l2)).
  rewrite IH. done.
Qed.

Lemma elem_of_adjacent_pairs {A} (l : list A) a b :
  (a, b) ∈ adjacent_pairs l ↔ ∃ l1 l2, l = l1 ++ a :: b :: l2.
Proof.
  split.
  - induction l as [|x [|y tl] IH]; [by intros ?%elem_of_nil..|].
    cbn [adjacent_pairs]. intros [Heq|Hin]%elem_of_cons.
    + injection Heq as -> ->. by exists [], tl.
    + destruct (IH Hin) as (l1 & l2 & ->). by exists (x :: l1), l2.
  - intros (l1 & l2 & ->). rewrite adjacent_pairs_app.
    apply elem_of_app. right. apply elem_of_cons. by left.
Qed.

(** A loop over [range(len(l) - 1)] that reads [l[i]] and [l[i + 1]] visits
    the adjacent pairs of [l] in order and raises nothing. *)
Lemma for_adjacent {A St} (l : list A) (body : Z → St → option St)
    (step : St → A * A → St) :
  (∀ (i : nat) a b s, l !! i = Some a → l !! S i = Some b →
     body (Z.of_nat i) s = Some (step s (a, b))) →
  ∀ s, for_ (range (len l - 1)) body s = Some (fold_left step (adjacent_pairs l) s).
Proof.
  intros Hbody.
  assert (Hgen : ∀ rest k s, drop k l = rest →
    for_ (map Z.of_nat (seq k (length rest - 1))) body s
    = Some (fold_left step (adjacent_pairs rest) s)).
  { induction rest as [|a [|b tl] IH]; intros k s Hdrop; [done..|].
    cbn [length Nat.sub seq map for_ adjacent_pairs fold_left].
    assert (l !! k = Some a) as Ha.
    { rewrite <- (Nat.add_0_r k), <- lookup_drop, Hdrop. done. }
    assert (l !! S k = Some b) as Hb.
    { rewrite <- (Nat.add_1_r k), <- lookup_drop, Hdrop. done. }
    rewrite (Hbody k a b s Ha Hb). cbn.
    specialize (IH (S k) (step s (a, b))).
    cbn [length Nat.sub] in IH. rewrite Nat.sub_0_r in IH. apply IH.
    replace (S k) with (k + 1)%nat by lia. rewrite <- drop_drop, Hdrop. done. }
  intros s. unfold range, len.
  replace (Z.to_nat (Z.of_nat (length l) - 1)) with (length l - 0 - 1)%nat by lia.
  rewrite Nat.sub_0_r. by apply Hgen.
Qed.

(** ** The stable sort *)

Section Sorted.
Context {A : Type} (key : A → Z).

Lemma insert_by_Permutation x l : insert_by key x l ≡ₚ x :: l.
Proof.
  induction l as [|y l IH]; [done|]. cbn.
  destruct (key x <=? key y); [done|].
  rewrite IH. apply Permutation_swap.
Qed.

Lemma sorted_Permutation l : sorted l key ≡ₚ l.
Proof.
  induction l as [|x l IH]; [done|].
  cbn. rewrite insert_by_Permutation. by f_equiv.
Qed.

Lemma sorted_length l : length (sorted l key) = length l.
Proof. apply Permutation_length, sorted_Permutation. Qed.

Lemma insert_by_StronglySorted x l :
  StronglySorted (key_le key) l → StronglySorted (key_le key) (insert_by key x l).
Proof.
  induction 1 as [|y l Hl IH Hy]; cbn.
  - repeat constructor.
  - destruct (Z.leb_spec (key x) (key y)) as [Hle|Hgt].
    + constructor; [by constructor|].
      constructor; [done|].
      eapply Forall_impl; [exact Hy|]. unfold key_le. intros; lia.
    + constructor; [done|].
      rewrite insert_by_Permutation. constructor; [unfold key_le; lia|done].
Qed.

Lemma sorted_StronglySorted l : StronglySorted (key_le key) (sorted l key).
Proof.
  induction l as [|x l IH]; [constructor|]. by apply insert_by_StronglySorted.
Qed.

(** Stability: elements of equal key keep their order. *)
Lemma insert_by_stable k x l :
  List.filter (λ a, key a =? k) (insert_by key x l)
  = List.filter (λ a, key a =? k) (x :: l).
Proof.
  induction l as [|y l IH]; [done|]. cbn [insert_by].
  destruct (Z.leb_spec (key x) (key y)) as [Hle|Hgt]; [done|].
  cbn [List.filter] in *. rewrite IH.
  destruct (Z.eqb_spec (key x) k), (Z.eqb_spec (key y) k); try done. lia.
Qed.

Lemma sorted_stable k l :
  List.filter (λ a, key a =? k) (sorted l key) = List.filter (λ a, key a =? k) l.
Proof.
  induction l as [|x l IH]; [done|].
  cbn [sorted foldr]. rewrite insert_by_stable. cbn [List.filter].
  unfold sorted in IH. by rewrite IH.
Qed.

(** A list already in order is returned as it is. *)
Lemma sorted_id l : Sorted (key_le key) l → sorted l key = l.
Proof.
  induction 1 as [|x l Hl IH Hx]; [done|].
  cbn [sorted foldr]. unfold sorted in IH. rewrite IH.
  destruct Hx as [|y l Hxy]; [done|]. cbn.
  unfold key_le in Hxy. by destruct (Z.leb_spec (key x) (key y)); [|lia].
Qed.

Lemma sorted_nil_inv l : sorted l key = [] → l = [].
Proof.
  intros H. apply (f_equal length) in H. rewrite sorted_length in H.
  by destruct l.
Qed.

(** Order and stability determine the result: two lists in key order with
    the same elements, in the same order, under every key are equal. So
    [sorted] is the result of every stable sort. *)
Lemma stable_sort_unique l1 l2 :
  StronglySorted (key_le key) l1 →
  StronglySorted (key_le key) l2 →
  (∀ k, List.filter (λ a, key a =? k) l1 = List.filter (λ a, key a =? k) l2) →
  l1 = l2.
Proof.
  intros H1. revert l2. induction H1 as [|x l1 Hl1 IH Hx]; intros l2 H2 Hf.
  - destruct l2 as [|y l2]; [done|].
    specialize (Hf (key y)). cbn in Hf. by rewrite Z.eqb_refl in Hf.
  - destruct H2 as [|y l2 Hl2 Hy].
    { specialize (Hf (key x)). cbn in Hf. by rewrite Z.eqb_refl in Hf. }
    assert (key x = key y) as Hk.
    { apply Z.le_antisymm.
      - pose proof (Hf (key y)) as Hfy. cbn in Hfy. rewrite (Z.eqb_refl (key y)) in Hfy.
        destruct (Z.eqb_spec (key x) (key y)) as [->|_]; [done|].
        assert (In y (List.filter (λ a, key a =? key y) l1)) as Hin
          by (rewrite Hfy; by left).
        apply filter_In in Hin as [Hin _]. apply list_elem_of_In in Hin.
        rewrite Forall_forall in Hx. apply (Hx y Hin).
      - pose proof (Hf (key x)) as Hfx. cbn in Hfx. rewrite (Z.eqb_refl (key x)) in Hfx.
        destruct (Z.eqb_spec (key y) (key x)) as [->|_]; [done|].
        assert (In x (List.filter (λ a, key a =? key x) l2)) as Hin
          by (rewrite <- Hfx; by left).
        apply filter_In in Hin as [Hin _]. apply list_elem_of_In in Hin.
        rewrite Forall_forall in Hy. apply (Hy x Hin). }
    pose proof (Hf (key x)) as Hfx. cbn in Hfx.
    rewrite <- Hk, Z.eqb_refl in Hfx. injection Hfx as -> Hfx.
    f_equal. apply IH; [done|]. intros k.
    destruct (Z.eq_dec k (key y)) as [->|Hne]; [done|].
    specialize (Hf k). cbn in Hf.
    by destruct (Z.eqb_spec (key y) k) as [?|_]; [congruence|].
Qed.

(** A sort function that puts every list in key order and is stable computes
    the same as [sorted]. *)
Corollary stable_sort_is_sorted (srt : list A → list A) :
  (∀ l, StronglySorted (key_le key) (srt l)) →
  (∀ k l, List.filter (λ a, key a =? k) (srt l) = List.filter (λ a, key a =? k) l) →
  ∀ l, srt l = sorted l key.
Proof.
  intros Hord Hstable l. apply stable_sort_unique; [done|apply sorted_StronglySorted|].
  intros k. by rewrite Hstable, sorted_stable.
Qed.
End Sorted.

(** Sorting commutes with a projection that keeps the key. *)
Lemma sorted_map {A B} (f : A → B) (key : B → Z) (l : list A) :
  map f (sorted l (λ a, key (f a))) = sorted (map f l) key.
Proof.
  induction l as [|x l IH]; [done|].
  cbn [sorted foldr map]. unfold sorted in IH. rewrite <- IH.
  generalize (foldr (insert_by (λ a, key (f a))) [] l). intros l'.
  induction l' as [|y l' IH']; [done|]. cbn.
  destruct (key (f x) <=? key (f y)); [done|]. cbn. by rewrite IH'.
Qed.

(** ** The two routines as functions of the sorted spans *)

Lemma fold_left_append {A B} (c : A → bool) (f : A → B) (l : list A) (acc : list B) :
  fold_left (λ acc a, if c a then acc ++ [f a] else acc) l acc
  = acc ++ flat_map (λ a, if c a then [f a] else []) l.
Proof.
  revert acc. induction l as [|a l IH]; intros acc; cbn.
  - by rewrite app_nil_r.
  - rewrite IH. destruct (c a); [by rewrite <- app_assoc|done].
Qed.

Lemma fold_left_count {A} (c : A → bool) (l : list A) (n : Z) :
  fold_left (λ n a, if c a then n + 1 else n) l n = n + len (List.filter c l).
Proof.
  revert n. induction l as [|a l IH]; intros n; cbn [fold_left List.filter].
  - unfold len. cbn. lia.
  - rewrite IH. destruct (c a); unfold len; cbn [length]; lia.
Qed.

Lemma flat_map_map {A B C} (f : A → B) (g : B → list C) (l : list A) :
  flat_map g (map f l) = flat_map (λ a, g (f a)) l.
Proof. induction l as [|a l IH]; [done|]. cbn. by rewrite IH. Qed.

Lemma filter_map_length {A B} (f : A → B) (c : B → bool) (l : list A) :
  length (List.filter c (map f l)) = length (List.filter (λ a, c (f a)) l).
Proof.
  induction l as [|a l IH]; [done|]. cbn. destruct (c (f a)); cbn; by rewrite IH.
Qed.

Lemma head_map {A B} (f : A → B) (l : list A) : head (map f l) = f <$> head l.
Proof. by destruct l. Qed.

Lemma last_map {A B} (f : A → B) (l : list A) : last (map f l) = f <$> last l.
Proof.
  induction l as [|a [|b l] IH]; [done..|].
  change (last (map f (a :: b :: l))) with (last (map f (b :: l))). by rewrite IH.
Qed.

Lemma find_free_blocks_spans now1 now2 events m :
  _find_free_blocks now1 now2 events m
  = Some (free_blocks_of (replace_hour now1 9) (replace_hour now2 22) m
            (map span (sorted events start))).
Proof.
  unfold _find_free_blocks. case_bool_decide as Hnil; [by subst|].
  set (evs := sorted events start).
  assert (evs ≠ []) as Hevs by (intros ?%sorted_nil_inv; done).
  unfold free_blocks_of. rewrite head_map, last_map, getitem_first.
  destruct (head evs) as [f|] eqn:Hf; [|by destruct evs]. cbn [mbind option_bind fmap option_fmap option_map].
  erewrite (for_adjacent evs _
    (λ acc p, if float_ge (minutes_of (dt_sub (start p.2) (end_ p.1))) m
              then acc ++ [(end_ p.1, start p.2)] else acc)).
  2:{ intros i a b s Ha Hb. rewrite getitem_nat, getitem_succ, Ha, Hb. done. }
  cbn [mbind option_bind]. rewrite getitem_last.
  destruct (last evs) as [l|] eqn:Hl; [|by destruct evs using rev_ind; [|rewrite last_snoc in Hl]].
  cbn [mbind option_bind fmap option_fmap option_map]. f_equal.
  rewrite (fold_left_append
    (λ p, float_ge (minutes_of (dt_sub (start p.2) (end_ p.1))) m)
    (λ p, (end_ p.1, start p.2))).
  rewrite adjacent_pairs_map, flat_map_map.
  unfold before_block, after_block, gap_block, span, dt_sub. cbn [fst snd].
  rewrite !float_ge_minutes.
  assert (flat_map (λ a : CalendarEvent * CalendarEvent,
       if float_ge (minutes_of (start a.2 - end_ a.1)) m
       then [(end_ a.1, start a.2)] else []) (adjacent_pairs evs)
     = flat_map (λ a : CalendarEvent * CalendarEvent,
       if m * usec_per_minute <=? start a.2 - end_ a.1
       then [(end_ a.1, start a.2)] else []) (adjacent_pairs evs)) as ->.
  { apply flat_map_ext. intros a. by rewrite float_ge_minutes. }
  destruct (replace_hour now1 9 <? start f), (end_ l <? replace_hour now2 22);
    cbn [andb];
    repeat match goal with |- context [if ?c then _ else _] => destruct c end;
    cbn [app]; rewrite ?app_nil_r, <- ?app_assoc; done.
Qed.

Lemma count_back_to_back_pairs events :
  _count_back_to_back events
  = Some (len (List.filter
                 (λ p : CalendarEvent * CalendarEvent,
                    start p.2 - end_ p.1 <? 15 * usec_per_minute)
                 (adjacent_pairs (sorted events start)))).
Proof.
  unfold _count_back_to_back.
  destruct (Z.ltb_spec (len events) 2) as [Hlt|Hge].
  - f_equal. destruct events as [|a [|b l]]; [done..|].
    unfold len in Hlt. cbn [length] in Hlt. lia.
  - erewrite (for_adjacent _ _
      (λ n p, if start p.2 - end_ p.1 <? 15 * usec_per_minute then n + 1 else n)).
    2:{ intros i a b s Ha Hb. rewrite getitem_nat, getitem_succ, Ha, Hb.
        cbn [mbind option_bind]. by rewrite float_lt_minutes. }
    cbn [mbind option_bind]. f_equal.
    rewrite (fold_left_count
      (λ p : CalendarEvent * CalendarEvent,
         start p.2 - end_ p.1 <? 15 * usec_per_minute)). lia.
Qed.

Lemma count_back_to_back_spans events :
  _count_back_to_back events = Some (count_of (map span (sorted events start))).
Proof.
  rewrite count_back_to_back_pairs. f_equal. unfold count_of, len. f_equal.
  rewrite adjacent_pairs_map, filter_map_length. done.
Qed.

(** ** Free blocks (C1) *)


Instance key_le_trans {A} (key : A → Z) : Transitive (key_le key).
Proof. unfold key_le. intros x y z ??. lia. Qed.

Lemma elem_of_flat_map {A B} (f : A → list B) (l : list A) (y : B) :
  y ∈ flat_map f l ↔ ∃ x, x ∈ l ∧ y ∈ f x.
Proof.
  rewrite list_elem_of_In, in_flat_map. setoid_rewrite list_elem_of_In. done.
Qed.

(** Where the blocks come from, for a list that is already sorted. *)
Lemma free_blocks_of_elem ws we m (evs : list CalendarEvent) (b : block) :
  b ∈ free_blocks_of ws we m (map span evs) →
  m * usec_per_minute <= b.2 - b.1 ∧
  ((∃ f rest, evs = f :: rest ∧ b.2 = start f)
   ∨ (∃ l1 x y l2, evs = l1 ++ x :: y :: l2 ∧ b = (end_ x, start y))
   ∨ (∃ l1 l, evs = l1 ++ [l] ∧ b.1 = end_ l)).
Proof.
  unfold free_blocks_of. rewrite head_map, last_map.
  destruct (head evs) as [f|] eqn:Hf; [|by intros ?%elem_of_nil].
  destruct (last evs) as [l|] eqn:Hl; [|by intros ?%elem_of_nil].
  apply head_Some in Hf as [rest Hf]. apply last_Some in Hl as [l1 Hl].
  cbn [fmap option_fmap option_map].
  rewrite !elem_of_app. intros [Hb|[Hb|Hb]].
  - unfold before_block in Hb. cbn [span fst] in Hb.
    destruct (_ <? _); cbn [andb] in Hb; [|by apply elem_of_nil in Hb].
    destruct (Z.leb_spec (m * usec_per_minute) (start f - ws));
      [|by apply elem_of_nil in Hb].
    apply list_elem_of_singleton in Hb as ->. cbn [fst snd]. eauto 10.
  - rewrite adjacent_pairs_map, flat_map_map in Hb.
    apply elem_of_flat_map in Hb as ([x y] & Hxy & Hb).
    apply elem_of_adjacent_pairs in Hxy as (k1 & k2 & Hxy).
    unfold gap_block in Hb. cbn [span fst snd] in Hb.
    destruct (Z.leb_spec (m * usec_per_minute) (start y - end_ x));
      [|by apply elem_of_nil in Hb].
    apply list_elem_of_singleton in Hb as ->. cbn [fst snd]. eauto 10.
  - unfold after_block in Hb. cbn [span snd] in Hb.
    destruct (_ <? _); cbn [andb] in Hb; [|by apply elem_of_nil in Hb].
    destruct (Z.leb_spec (m * usec_per_minute) (we - end_ l));
      [|by apply elem_of_nil in Hb].
    apply list_elem_of_singleton in Hb as ->. cbn [fst snd]. eauto 10.
Qed.


(** Order and validity facts about a concrete list of events. *)
Ltac concrete_order :=
  unfold sorted_by_start, non_overlapping;
  repeat first
    [ apply Sorted_nil | apply Sorted_cons | apply HdRel_nil | apply HdRel_cons
    | apply SSorted_nil | apply SSorted_cons
    | apply Forall_nil_2 | apply Forall_cons_2 ];
  unfold key_le, valid_span; apply Z.leb_le; reflexivity.

Example find_free_blocks_standup_day :
  _find_free_blocks (ist 20000 8 0) (ist 20000 8 0) standup_day 30
  = Some [(ist 20000 11 30, ist 20000 22 0)].
Proof. reflexivity. Qed.

(** A single afternoon event leaves the morning and the evening free; an
    event that starts before the window opens leaves no block before it. *)
Example find_free_blocks_single_event :
  _find_free_blocks (ist 20000 8 0) (ist 20000 8 0) [quick_list_review] 30
  = Some [(ist 20000 9 0, ist 20000 14 0); (ist 20000 15 0, ist 20000 22 0)].
Proof. reflexivity. Qed.

Example find_free_blocks_early_event :
  _find_free_blocks (ist 20000 8 0) (ist 20000 8 0)
    [ev "Breakfast" (ist 20000 8 0) (ist 20000 9 30)] 30
  = Some [(ist 20000 9 30, ist 20000 22 0)].
Proof. reflexivity. Qed.


(** The validity of the spans cannot be dropped there: the constructor of
    events accepts [end < start], and an event that ends before it starts
    lets the gap after it reach back over an earlier event. *)
Example find_free_blocks_reversed_span :
  let events := [ev "A" (ist 20000 10 0) (ist 20000 12 0);
                 ev "B" (ist 20000 12 0) (ist 20000 11 0);
                 ev "C" (ist 20000 13 0) (ist 20000 14 0)] in
  sorted_by_start events ∧ non_overlapping events ∧
  _find_free_blocks (ist 20000 8 0) (ist 20000 8 0) events 30
  = Some [(ist 20000 9 0, ist 20000 10 0);
          (ist 20000 11 0, ist 20000 13 0);
          (ist 20000 14 0, ist 20000 22 0)].
Proof.
  split; [concrete_order|]. split; [concrete_order|reflexivity].
Qed.

(** ** Back-to-back count (C2) *)

(** C2. The back-to-back counter returns the number of adjacent pairs, in
    the list sorted by start, whose gap [next.start - current.end] is
    strictly under 15 minutes (negative gaps included); on the empty list
    and on a list of one event it returns 0. *)
Theorem count_back_to_back_correct :
  (∀ events, _count_back_to_back events = Some (back_to_back_spec events)) ∧
  _count_back_to_back [] = Some 0 ∧
  (∀ e, _count_back_to_back [e] = Some 0).
Proof.
  split; [|split; [reflexivity|intros e; reflexivity]].
  intros events. apply count_back_to_back_pairs.
Qed.

Example count_back_to_back_standup_day : _count_back_to_back standup_day = Some 2.
Proof. reflexivity. Qed.

(** An overlapping pair has a negative gap and is counted. *)
Example count_back_to_back_overlap :
  _count_back_to_back [ev "A" (ist 20000 10 0) (ist 20000 12 0);
                       ev "B" (ist 20000 11 0) (ist 20000 13 0)] = Some 1.
Proof. reflexivity. Qed.

(** ** Dependence on the clock (C7) *)

(** The same event list and minimum duration, analysed on two different
    days, give different free blocks. *)
Lemma find_free_blocks_clock_counterexample :
  _find_free_blocks (ist 20000 8 0) (ist 20000 8 0) [lunch] 30
  = Some [(ist 20000 9 0, ist 20000 10 0); (ist 20000 11 0, ist 20000 22 0)]
  ∧ _find_free_blocks (ist 20001 8 0) (ist 20001 8 0) [lunch] 30
    = Some [(ist 20000 11 0, ist 20001 22 0)]
  ∧ _find_free_blocks (ist 20000 8 0) (ist 20000 8 0) [lunch] 30
    ≠ _find_free_blocks (ist 20001 8 0) (ist 20001 8 0) [lunch] 30.
Proof. split; [reflexivity|]. split; [reflexivity|]. discriminate. Qed.

(** C7, amended. The free-block finder reads the clock twice and uses only
    the IST calendar day of each reading: two invocations on the same event
    list and minimum duration whose readings fall on the same IST days
    return the same result. *)
Theorem find_free_blocks_same_day now1 now2 now1' now2' events min_duration_minutes :
  ist_date now1 = ist_date now1' →
  ist_date now2 = ist_date now2' →
  _find_free_blocks now1 now2 events min_duration_minutes
  = _find_free_blocks now1' now2' events min_duration_minutes.
Proof.
  intros H1 H2. rewrite !find_free_blocks_spans.
  unfold replace_hour. by rewrite H1, H2.
Qed.

Lemma find_free_blocks_same_day_witness :
  ist_date (ist 20000 8 0) = ist_date (ist 20000 17 45) ∧
  ist_date (ist 20000 8 1) = ist_date (ist 20000 17 46) ∧
  _find_free_blocks (ist 20000 8 0) (ist 20000 8 1) standup_day 30
  = _find_free_blocks (ist 20000 17 45) (ist 20000 17 46) standup_day 30.
Proof.
  assert (ist_date (ist 20000 8 0) = ist_date (ist 20000 17 45)) as H1
    by reflexivity.
  assert (ist_date (ist 20000 8 1) = ist_date (ist 20000 17 46)) as H2
    by reflexivity.
  split; [exact H1|]. split; [exact H2|].
  exact (find_free_blocks_same_day _ _ _ _ standup_day 30 H1 H2).
Defined.

(** ** The empty day (C8) *)

(** On an empty day the analysis reports no free block, not the whole
    workday window. *)
Lemma empty_day_counterexample :
  free_blocks <$> analyze_schedule (ist 20000 8 0) (ist 20000 8 0) [] = Some []
  ∧ free_blocks <$> analyze_schedule (ist 20000 8 0) (ist 20000 8 0) []
    ≠ Some [(ist 20000 9 0, ist 20000 22 0)].
Proof. split; [reflexivity|discriminate]. Qed.

(** C8, amended. When the event list of the day is empty, schedule analysis
    returns an empty list of free blocks, a back-to-back count of 0 and a
    total of 0 events. *)
Theorem empty_day_analysis now1 now2 :
  ∃ r, analyze_schedule now1 now2 [] = Some r ∧
       free_blocks r = [] ∧ back_to_back_count r = 0 ∧ total_events r = 0.
Proof. eexists. split; [reflexivity|]. done. Qed.

(** ** Events with the same start time (C10) *)

(** Two events that start together but end apart: their order in the input
    decides which one faces the next event, and with it the gaps. *)
Lemma swap_same_start_counterexample :
  start short_call = start workshop
  ∧ _count_back_to_back [short_call; workshop; review] = Some 2
  ∧ _count_back_to_back [workshop; short_call; review] = Some 1
  ∧ _find_free_blocks (ist 20000 8 0) (ist 20000 8 0)
      [short_call; workshop; review] 30
    = Some [(ist 20000 9 0, ist 20000 10 0); (ist 20000 13 0, ist 20000 22 0)]
  ∧ _find_free_blocks (ist 20000 8 0) (ist 20000 8 0)
      [workshop; short_call; review] 30
    = Some [(ist 20000 9 0, ist 20000 10 0);
            (ist 20000 10 10, ist 20000 12 10);
            (ist 20000 13 0, ist 20000 22 0)]
  ∧ (ist 20000 10 10, ist 20000 12 10)
    ∉ [(ist 20000 9 0, ist 20000 10 0); (ist 20000 13 0, ist 20000 22 0)].
Proof.
  repeat split; try reflexivity.
  intros [Heq|[Heq|Hin%elem_of_nil]%elem_of_cons]%elem_of_cons;
    [discriminate Heq|discriminate Heq|done].
Qed.

(** C10, amended. Swapping two events of the input that have the same start
    time and the same end time changes neither the free intervals returned
    by the free-block finder nor the back-to-back count. *)
Theorem swap_same_span now1 now2 min_duration_minutes pre a mid b post :
  start a = start b →
  end_ a = end_ b →
  _find_free_blocks now1 now2 (pre ++ a :: mid ++ b :: post) min_duration_minutes
  = _find_free_blocks now1 now2 (pre ++ b :: mid ++ a :: post) min_duration_minutes
  ∧ _count_back_to_back (pre ++ a :: mid ++ b :: post)
    = _count_back_to_back (pre ++ b :: mid ++ a :: post).
Proof.
  intros Hstart Hend.
  assert (map span (sorted (pre ++ a :: mid ++ b :: post) start)
          = map span (sorted (pre ++ b :: mid ++ a :: post) start)) as Hspans.
  { rewrite !(sorted_map span fst). f_equal.
    rewrite !map_app. cbn [map]. rewrite !map_app. cbn [map].
    unfold span. by rewrite Hstart, Hend. }
  rewrite !find_free_blocks_spans, !count_back_to_back_spans, Hspans. done.
Qed.

Lemma swap_same_span_witness :
  start short_call = start short_call_twin ∧
  end_ short_call = end_ short_call_twin ∧
  _find_free_blocks (ist 20000 8 0) (ist 20000 8 0)
    ([] ++ short_call :: [workshop] ++ short_call_twin :: [review]) 30
  = _find_free_blocks (ist 20000 8 0) (ist 20000 8 0)
    ([] ++ short_call_twin :: [workshop] ++ short_call :: [review]) 30
  ∧ _count_back_to_back ([] ++ short_call :: [workshop] ++ short_call_twin :: [review])
    = _count_back_to_back ([] ++ short_call_twin :: [workshop] ++ short_call :: [review]).
Proof.
  assert (start short_call = start short_call_twin) as H1 by reflexivity.
  assert (end_ short_call = end_ short_call_twin) as H2 by reflexivity.
  split; [exact H1|]. split; [exact H2|].
  exact (swap_same_span (ist 20000 8 0) (ist 20000 8 0) 30
           [] short_call [workshop] short_call_twin [review] H1 H2).
Defined.

(** ** The classifier (C3, C4) *)

Lemma filter_sublist {A} (p : A → bool) (l : list A) : sublist (List.filter p l) l.
Proof.
  induction l as [|x l IH]; [constructor|]. cbn.
  destruct (p x); by constructor.
Qed.

Lemma elem_of_filter_bool {A} (p : A → bool) (l : list A) (x : A) :
  x ∈ List.filter p l ↔ x ∈ l ∧ p x = true.
Proof. rewrite !list_elem_of_In. apply filter_In. Qed.

Section ClassifierFacts.
Variable lower : string → string.

Lemma rank_step_get r meeting t :
  get_tier (rank_step lower r meeting) t
  = get_tier r t ++ (if bool_decide (tier_of lower meeting = t) then [meeting] else []).
Proof.
  unfold rank_step, tier_of.
  destruct (any_in critical_words _);
    [|destruct (any_in important_words _);
      [|destruct (any_in moderate_words _);
        [|destruct (_ || _)]]];
    destruct t; cbn; by rewrite ?app_nil_r.
Qed.

Lemma fold_rank_step_get meetings r t :
  get_tier (fold_left (rank_step lower) meetings r) t
  = get_tier r t ++ List.filter (λ e, bool_decide (tier_of lower e = t)) meetings.
Proof.
  revert r. induction meetings as [|e l IH]; intros r; cbn [fold_left List.filter].
  - by rewrite app_nil_r.
  - rewrite IH, rank_step_get, <- app_assoc. by destruct (bool_decide _).
Qed.

(** Each list of the result is the input filtered: the meetings whose
    branch is that tier, in input order. *)
Lemma stack_rank_meetings_get events t :
  get_tier (stack_rank_meetings lower events) t
  = List.filter (λ e, bool_decide (tier_of lower e = t)) (List.filter is_meeting events).
Proof.
  unfold stack_rank_meetings. rewrite fold_rank_step_get. by destruct t.
Qed.

Lemma elem_of_stack_rank events t e :
  e ∈ get_tier (stack_rank_meetings lower events) t
  ↔ e ∈ events ∧ is_meeting e = true ∧ tier_of lower e = t.
Proof.
  rewrite stack_rank_meetings_get, !elem_of_filter_bool, bool_decide_eq_true.
  tauto.
Qed.

Lemma is_meeting_true e :
  is_meeting e = true ↔ is_focus_block e = false ∧ is_commute e = false.
Proof.
  unfold is_meeting. rewrite andb_true_iff, !negb_true_iff. done.
Qed.

(** C3. In the result of the classifier, two different tiers share no
    event; an event of the input that is neither a focus block nor a commute
    block is in exactly one tier; a focus block or a commute block is in no
    tier; and each tier lists its events in the order of the input. *)
Theorem stack_rank_partition events :
  let r := stack_rank_meetings lower events in
  (∀ t1 t2 e, t1 ≠ t2 → e ∈ get_tier r t1 → e ∉ get_tier r t2) ∧
  (∀ e, e ∈ events → is_focus_block e = false → is_commute e = false →
        ∃ t, e ∈ get_tier r t ∧ ∀ t', e ∈ get_tier r t' → t' = t) ∧
  (∀ e t, is_focus_block e = true ∨ is_commute e = true → e ∉ get_tier r t) ∧
  (∀ t, sublist (get_tier r t) events).
Proof.
  cbn zeta. repeat split.
  - intros t1 t2 e Hne (_ & _ & H1)%elem_of_stack_rank (_ & _ & H2)%elem_of_stack_rank.
    congruence.
  - intros e He Hf Hc. exists (tier_of lower e). split.
    + apply elem_of_stack_rank. by rewrite is_meeting_true.
    + by intros t' (_ & _ & <-)%elem_of_stack_rank.
  - intros e t Hfc (_ & [Hf Hc]%is_meeting_true & _)%elem_of_stack_rank.
    destruct Hfc; congruence.
  - intros t. rewrite stack_rank_meetings_get.
    etrans; apply filter_sublist.
Qed.

(** C4. For an event of the input that is neither a focus block nor a
    commute block and whose lowercased title holds no word of the critical,
    important or moderate lists, the classifier puts it in the cancelable
    tier exactly when its duration is at most 30 minutes or its lowercased
    title contains "list", and in the moderate tier exactly when not. *)
Theorem cancelable_rule events e :
  e ∈ events →
  is_focus_block e = false →
  is_commute e = false →
  any_in critical_words (lower (title e)) = false →
  any_in important_words (lower (title e)) = false →
  any_in moderate_words (lower (title e)) = false →
  let r := stack_rank_meetings lower events in
  let short_or_list :=
    duration_minutes e <= 30 ∨ contains "list" (lower (title e)) = true in
  (e ∈ cancelable r ↔ short_or_list) ∧
  (e ∈ moderate r ↔ ¬ short_or_list) ∧
  (e ∉ critical r) ∧ (e ∉ important r).
Proof.
  intros He Hf Hc H1 H2 H3. cbn zeta.
  change (cancelable ?r) with (get_tier r Cancelable).
  change (moderate ?r) with (get_tier r Moderate).
  change (critical ?r) with (get_tier r Critical).
  change (important ?r) with (get_tier r Important).
  rewrite !elem_of_stack_rank, is_meeting_true.
  unfold tier_of. rewrite H1, H2, H3.
  destruct (Z.leb_spec (duration_minutes e) 30) as [Hd|Hd];
    destruct (contains "list" (lower (title e))) eqn:Hl; cbn [orb];
    intuition first [congruence | lia].
Qed.
End ClassifierFacts.

Lemma cancelable_rule_witness :
  quick_list_review ∈ [quick_list_review] ∧
  is_focus_block quick_list_review = false ∧
  is_commute quick_list_review = false ∧
  any_in critical_words (ascii_lower (title quick_list_review)) = false ∧
  any_in important_words (ascii_lower (title quick_list_review)) = false ∧
  any_in moderate_words (ascii_lower (title quick_list_review)) = false ∧
  let r := stack_rank_meetings ascii_lower [quick_list_review] in
  let short_or_list :=
    duration_minutes quick_list_review <= 30
    ∨ contains "list" (ascii_lower (title quick_list_review)) = true in
  (quick_list_review ∈ cancelable r ↔ short_or_list) ∧
  (quick_list_review ∈ moderate r ↔ ¬ short_or_list) ∧
  (quick_list_review ∉ critical r) ∧ (quick_list_review ∉ important r).
Proof.
  assert (quick_list_review ∈ [quick_list_review]) as H0
    by (apply elem_of_cons; by left).
  repeat (split; [first [exact H0 | reflexivity]|]).
  exact (cancelable_rule ascii_lower [quick_list_review] quick_list_review
           H0 eq_refl eq_refl eq_refl eq_refl eq_refl).
Defined.

Example stack_rank_standup_day :
  stack_rank_meetings ascii_lower standup_day
  = {| critical := [ev "Production Incident Review" (ist 20000 10 5) (ist 20000 11 0)];
       important := [ev "Daily Standup" (ist 20000 9 0) (ist 20000 10 0)];
       moderate := [ev "Team Sync" (ist 20000 11 0) (ist 20000 11 30)];
       cancelable := [] |}.
Proof. reflexivity. Qed.

Example stack_rank_quick_list_review :
  stack_rank_meetings ascii_lower [quick_list_review]
  = {| critical := []; important := []; moderate := [];
       cancelable := [quick_list_review] |}.
Proof. reflexivity. Qed.

(** ** Construction (C5) *)

(** An event that ends before it starts is constructed like any other. *)
Lemma construction_counterexample :
  50 < 100 ∧
  new_event "evt" "Standup" 100 50
  = inr (mkCalendarEvent "evt" "Standup" 100 50 ACCEPTED None None None false) ∧
  new_event "evt" "Standup" 100 50 ≠ inl InvalidInterval.
Proof. split; [lia|]. split; [reflexivity|discriminate]. Qed.

(** C5, amended. Constructing an Event never fails, whatever the order of its
    two timestamps: the Event holds the start and the end it was given,
    unclamped, also when the end is before the start. Construction has no
    error condition. *)
Theorem construction_total id0 title0 start0 end0 status0 location0
    description0 attendees0 has_meeting_link0 :
  ∃ e, CalendarEvent_init id0 title0 start0 end0 status0 location0
         description0 attendees0 has_meeting_link0 = inr e
       ∧ start e = start0 ∧ end_ e = end0.
Proof. eexists. split; [reflexivity|]. done. Qed.

(** ** Duration (C6) *)




(** Whole minutes are read back exactly. *)
Example duration_minutes_hour :
  duration_minutes (ev "Hour" (ist 20000 14 0) (ist 20000 15 0)) = 60.
Proof. reflexivity. Qed.

(** ** Roles (C9) *)

(** A title may carry a focus marker and a commute marker at once. *)
Lemma roles_counterexample :
  let e := ev "Commute before Focus Block" (ist 20000 8 0) (ist 20000 9 0) in
  is_focus_block e = true ∧ is_commute e = true.
Proof. split; reflexivity. Qed.

(** C9, amended. The flags give every Event at least one of three roles:
    focus block ([is_focus_block]), commute block ([is_commute]), ordinary
    meeting (neither flag). The ordinary role excludes the other two; the
    focus and the commute flag do not exclude each other: both hold exactly
    when the title contains a focus marker and a commute marker. *)
Theorem roles_cover e :
  (is_focus_block e = true ∨ is_commute e = true ∨ is_meeting e = true) ∧
  (is_meeting e = true ↔ is_focus_block e = false ∧ is_commute e = false) ∧
  (is_focus_block e = true ∧ is_commute e = true ↔
     (contains "Focus Block" (title e) = true ∨ contains "🎯" (title e) = true) ∧
     (contains "Commute" (title e) = true ∨ contains "🚗" (title e) = true)).
Proof.
  unfold is_meeting, is_focus_block, is_commute.
  destruct (contains "Focus Block" (title e)), (contains "🎯" (title e)),
    (contains "Commute" (title e)), (contains "🚗" (title e));
    cbn; intuition congruence.
Qed.

(** * The code around the analysis *)

(** ** Interval analysis on every input *)

Lemma adjacent_pairs_length {A} (l : list A) :
  length (adjacent_pairs l) = (length l - 1)%nat.
Proof.
  induction l as [|a [|b tl] IH]; [done..|].
  cbn [adjacent_pairs length] in *. lia.
Qed.

Lemma gap_blocks_close_length m ps :
  15 <= m →
  (length (flat_map (gap_block m) ps) + length (List.filter close_spans ps)
   ≤ length ps)%nat.
Proof.
  intros Hm. induction ps as [|p ps IH]; [done|].
  cbn [flat_map List.filter]. rewrite length_app.
  unfold gap_block at 1, close_spans at 1.
  destruct (Z.leb_spec (m * usec_per_minute) (p.2.1 - p.1.2)),
           (Z.ltb_spec (p.2.1 - p.1.2) (15 * usec_per_minute));
    cbn [length]; unfold usec_per_minute, usec_per_second in *; lia.
Qed.


Lemma before_block_length ws m f : (length (before_block ws m f) ≤ 1)%nat.
Proof. unfold before_block. destruct (_ && _); cbn; lia. Qed.

Lemma after_block_length we m l : (length (after_block we m l) ≤ 1)%nat.
Proof. unfold after_block. destruct (_ && _); cbn; lia. Qed.

Lemma free_blocks_of_length ws we m spans :
  (length (free_blocks_of ws we m spans)
   ≤ 2 + length (flat_map (gap_block m) (adjacent_pairs spans)))%nat.
Proof.
  unfold free_blocks_of. destruct (head spans), (last spans); cbn [length]; try lia.
  rewrite !length_app.
  pose proof (before_block_length ws m p). pose proof (after_block_length we m p0). lia.
Qed.


Lemma free_blocks_of_long ws we m (evs : list CalendarEvent) (b : block) :
  b ∈ free_blocks_of ws we m (map span evs) → m * usec_per_minute <= b.2 - b.1.
Proof. by intros [? _]%free_blocks_of_elem. Qed.


(** X2.
    The back-to-back counter on an arbitrary list of events: it raises
    nothing and its count lies between 0 and the number of adjacent pairs,
    [len(events) - 1]. *)
Theorem count_back_to_back_bounds events :
  ∃ c, _count_back_to_back events = Some c ∧
       0 <= c ∧ c <= Z.max 0 (len events - 1).
Proof.
  eexists. split; [apply count_back_to_back_spans|].
  unfold count_of, len.
  pose proof (filter_length_le close_spans
                (adjacent_pairs (map span (sorted events start)))) as H.
  rewrite adjacent_pairs_length, length_map, sorted_length in H. lia.
Qed.

Lemma displayed_minutes_ge (b : block) m :
  0 <= m → m * usec_per_minute <= b.2 - b.1 → m <= displayed_minutes b.
Proof.
  intros Hm Hb. unfold displayed_minutes, dt_sub. rewrite int_of_minutes.
  assert (0 < usec_per_minute) by (unfold usec_per_minute, usec_per_second; lia).
  rewrite Z.quot_div_nonneg by nia.
  apply Z.div_le_lower_bound; lia.
Qed.

(** X3.
    Schedule analysis on an arbitrary list of fetched events: it raises
    nothing; it counts all the events, and as meetings no more than that; a
    pair of neighbours is never both back-to-back and the ends of a free
    block, so the back-to-back count and the number of free blocks together
    stay within the number of events plus one; and every free block is
    displayed by [cmd_analyze] with a duration of at least 30 minutes. *)
Theorem analyze_schedule_summary now1 now2 events :
  ∃ r, analyze_schedule now1 now2 events = Some r ∧
       total_events r = len events ∧
       0 <= total_meetings r <= total_events r ∧
       0 <= back_to_back_count r ∧
       back_to_back_count r + len (free_blocks r) <= total_events r + 1 ∧
       ∀ b, b ∈ free_blocks r → 30 <= displayed_minutes b.
Proof.
  unfold analyze_schedule.
  rewrite find_free_blocks_spans, count_back_to_back_spans.
  cbn [mbind option_bind]. eexists. split; [reflexivity|].
  cbn [total_events total_meetings back_to_back_count free_blocks].
  split; [done|]. split.
  { unfold len. pose proof (filter_length_le is_meeting events). lia. }
  split; [unfold count_of, len; lia|]. split.
  - unfold count_of, len, default_min_duration_minutes.
    set (spans := map span (sorted events start)).
    pose proof (free_blocks_of_length (replace_hour now1 9) (replace_hour now2 22)
                  30 spans) as H1.
    pose proof (gap_blocks_close_length 30 (adjacent_pairs spans) ltac:(lia)) as H2.
    rewrite adjacent_pairs_length in H2.
    assert (length spans = length events) as Hlen
      by (unfold spans; by rewrite length_map, sorted_length).
    destruct events as [|e0 events].
    + cbn. lia.
    + cbn [length] in *. lia.
  - intros b Hb. apply displayed_minutes_ge; [done|].
    by eapply free_blocks_of_long.
Qed.

(** ** Independence of the input order *)

Lemma Permutation_filter_bool {A} (f : A → bool) (l l' : list A) :
  l ≡ₚ l' → List.filter f l ≡ₚ List.filter f l'.
Proof.
  induction 1 as [|x l l' _ IH|x y l|l l' l'' _ IH1 _ IH2]; cbn.
  - done.
  - destruct (f x); by rewrite IH.
  - destruct (f x), (f y); try done. apply Permutation_swap.
  - by etrans.
Qed.

Lemma Permutation_all_equal {A} (l l' : list A) :
  l ≡ₚ l' → (∀ x y, x ∈ l → y ∈ l → x = y) → l = l'.
Proof.
  induction 1 as [|x l l' Hp IH|x y l|l l' l'' Hp1 IH1 Hp2 IH2]; intros Heq.
  - done.
  - f_equal. apply IH. intros a b Ha Hb. apply Heq; by right.
  - rewrite (Heq x y); [done|right; by left|by left].
  - specialize (IH1 Heq). subst l'. by apply IH2.
Qed.

Lemma sorted_Permutation_inv {A} (key : A → Z) (l l' : list A) :
  l ≡ₚ l' →
  (∀ x y, x ∈ l → y ∈ l → key x = key y → x = y) →
  sorted l key = sorted l' key.
Proof.
  intros Hp Heq.
  apply (stable_sort_unique key); [apply sorted_StronglySorted..|].
  intros k. rewrite !sorted_stable.
  apply Permutation_all_equal; [by apply Permutation_filter_bool|].
  intros x y [Hx Hkx%Z.eqb_eq]%elem_of_filter_bool [Hy Hky%Z.eqb_eq]%elem_of_filter_bool.
  apply Heq; [done..|lia].
Qed.

(** X4.
    The analysis sorts for itself: when events that start together also end
    together (in particular when no two events start together), the free
    blocks and the back-to-back count do not depend on the order in which
    the events are passed. *)
Theorem analysis_order_independent now1 now2 min_duration_minutes events events' :
  events ≡ₚ events' →
  same_start_same_end events →
  _find_free_blocks now1 now2 events min_duration_minutes
  = _find_free_blocks now1 now2 events' min_duration_minutes
  ∧ _count_back_to_back events = _count_back_to_back events'.
Proof.
  intros Hp Hsame.
  assert (map span (sorted events start) = map span (sorted events' start)) as Hspans.
  { rewrite !(sorted_map span fst).
    apply sorted_Permutation_inv; [by apply Permutation_map|].
    intros x y Hx Hy Hfst.
    apply list_elem_of_In, in_map_iff in Hx as (a & <- & Ha%list_elem_of_In).
    apply list_elem_of_In, in_map_iff in Hy as (b & <- & Hb%list_elem_of_In).
    unfold span in *. cbn [fst] in Hfst.
    by rewrite Hfst, (Hsame a b Ha Hb Hfst). }
  rewrite !find_free_blocks_spans, !count_back_to_back_spans, Hspans. done.
Qed.

Lemma analysis_order_independent_witness :
  standup_day ≡ₚ reverse standup_day ∧
  same_start_same_end standup_day ∧
  _find_free_blocks (ist 20000 8 0) (ist 20000 8 0) standup_day 30
  = _find_free_blocks (ist 20000 8 0) (ist 20000 8 0) (reverse standup_day) 30
  ∧ _count_back_to_back standup_day = _count_back_to_back (reverse standup_day).
Proof.
  assert (standup_day ≡ₚ reverse standup_day) as H1
    by (symmetry; apply reverse_Permutation).
  assert (same_start_same_end standup_day) as H2.
  { intros a b Ha Hb.
    repeat (apply elem_of_cons in Ha as [->|Ha]); [..|by apply elem_of_nil in Ha];
    repeat (apply elem_of_cons in Hb as [->|Hb]); try (by apply elem_of_nil in Hb);
      first [reflexivity | intros Hs; vm_compute in Hs; discriminate Hs]. }
  split; [exact H1|]. split; [exact H2|].
  exact (analysis_order_independent (ist 20000 8 0) (ist 20000 8 0) 30
           standup_day (reverse standup_day) H1 H2).
Defined.

(** ** Order of the free blocks *)

Lemma non_overlapping_sorted events :
  non_overlapping events → Forall valid_span events → sorted_by_start events.
Proof.
  intros Hdisj Hvalid. apply StronglySorted_Sorted.
  induction Hdisj as [|a l Hl IH Ha]; [constructor|].
  apply Forall_cons in Hvalid as [Hva Hvl].
  constructor; [by apply IH|].
  eapply Forall_impl; [exact Ha|]. unfold key_le, valid_span in *. intros; lia.
Qed.

(** The gap blocks of a list of valid, non-overlapping events come in
    order, after the end of the first event and before the start of the
    last one. *)
Lemma gap_blocks_chronological m (evs : list CalendarEvent) :
  non_overlapping evs → Forall valid_span evs →
  let gaps := flat_map (gap_block m) (adjacent_pairs (map span evs)) in
  chronological gaps ∧
  ∀ b, b ∈ gaps →
    (∀ f, head evs = Some f → end_ f <= b.1) ∧
    (∀ l, last evs = Some l → b.2 <= start l).
Proof.
  intros Hdisj Hvalid. cbn zeta.
  induction evs as [|x [|y tl] IH]; [split; [constructor|by intros ? ?%elem_of_nil]..|].
  apply StronglySorted_cons in Hdisj as [Hx Hdisj].
  apply Forall_cons in Hvalid as [Hvx Hvalid].
  destruct (IH Hdisj Hvalid) as [IHs IHb]. clear IH.
  change (adjacent_pairs (map span (x :: y :: tl)))
    with ((span x, span y) :: adjacent_pairs (map span (y :: tl))).
  cbn [flat_map].
  assert (∀ l, last (y :: tl) = Some l → start y <= start l) as Hlast.
  { intros l Hl. apply last_Some_elem_of, elem_of_cons in Hl as [->|Hl]; [lia|].
    apply StronglySorted_cons in Hdisj as [Hy _]. rewrite Forall_forall in Hy.
    apply Forall_cons in Hvalid as [Hvy _]. specialize (Hy l Hl).
    unfold valid_span in Hvy. lia. }
  assert (∀ b, b ∈ gap_block m (span x, span y) →
            b = (end_ x, start y)) as Hgap.
  { intros b Hb. unfold gap_block in Hb. cbn [span fst snd] in Hb.
    destruct (_ <=? _); [|by apply elem_of_nil in Hb].
    by apply list_elem_of_singleton in Hb. }
  split.
  - apply StronglySorted_app_2; [|unfold gap_block; destruct (_ <=? _); repeat constructor|done].
    intros b1 b2 ->%Hgap Hb2. cbn [snd].
    destruct (IHb b2 Hb2) as [Hf _]. specialize (Hf y eq_refl).
    apply Forall_cons in Hvalid as [Hvy _]. unfold valid_span in Hvy.
    exact (Z.le_trans _ _ _ Hvy Hf).
  - intros b [->%Hgap|Hb]%elem_of_app; cbn [head fst snd].
    + split; [intros f [= <-]; lia|].
      intros l Hl. change (last (x :: y :: tl)) with (last (y :: tl)) in Hl.
      by apply Hlast.
    + destruct (IHb b Hb) as [Hf Hl]. specialize (Hf y eq_refl).
      split; [|intros l Hl'; by apply Hl].
      intros f [= <-]. rewrite Forall_forall in Hx.
      assert (end_ x <= start y) by (apply Hx; by left).
      apply Forall_cons in Hvalid as [Hvy _]. unfold valid_span in Hvy. lia.
Qed.

(** X5.
    On a list of events that are valid and pairwise non-overlapping, the
    free blocks come back in chronological order and do not overlap one
    another: each block ends no later than the next one starts. *)
Theorem find_free_blocks_chronological now1 now2 events min_duration_minutes :
  non_overlapping events →
  Forall valid_span events →
  ∃ blocks,
    _find_free_blocks now1 now2 events min_duration_minutes = Some blocks ∧
    chronological blocks.
Proof.
  intros Hdisj Hvalid. eexists. split; [apply find_free_blocks_spans|].
  rewrite (sorted_id start events) by by apply non_overlapping_sorted.
  destruct (gap_blocks_chronological min_duration_minutes events Hdisj Hvalid)
    as [Hgaps Hbounds].
  unfold free_blocks_of. rewrite head_map, last_map.
  destruct (head events) as [f|] eqn:Hf; [|constructor].
  destruct (last events) as [l|] eqn:Hl; [|constructor].
  cbn [fmap option_fmap option_map].
  assert (start f <= end_ l) as Hfl.
  { rewrite Forall_forall in Hvalid.
    pose proof (Hvalid f (head_Some_elem_of _ _ Hf)) as Hvf.
    pose proof (Hvalid l (last_Some_elem_of _ _ Hl)) as Hvl.
    unfold valid_span in *.
    apply head_Some in Hf as [rest ->].
    apply last_Some_elem_of, elem_of_cons in Hl as [->|Hl]; [lia|].
    apply StronglySorted_cons in Hdisj as [Hd _]. rewrite Forall_forall in Hd.
    specialize (Hd l Hl). cbn in Hd. lia. }
  assert (∀ b, b ∈ before_block (replace_hour now1 9) min_duration_minutes (span f) →
            b.2 = start f) as Hbefore.
  { intros b Hb. unfold before_block in Hb.
    destruct (_ && _); [|by apply elem_of_nil in Hb].
    by apply list_elem_of_singleton in Hb as ->. }
  assert (∀ b, b ∈ after_block (replace_hour now2 22) min_duration_minutes (span l) →
            b.1 = end_ l) as Hafter.
  { intros b Hb. unfold after_block in Hb.
    destruct (_ && _); [|by apply elem_of_nil in Hb].
    by apply list_elem_of_singleton in Hb as ->. }
  rewrite Forall_forall in Hvalid.
  pose proof (Hvalid f (head_Some_elem_of _ _ Hf)) as Hvf.
  pose proof (Hvalid l (last_Some_elem_of _ _ Hl)) as Hvl.
  unfold valid_span in Hvf, Hvl.
  apply StronglySorted_app_2.
  - intros b1 b2 Hb1%Hbefore [Hb2|Hb2%Hafter]%elem_of_app.
    + destruct (Hbounds b2 Hb2) as [H1 _]. specialize (H1 f eq_refl).
      unfold block, datetime in *. lia.
    + unfold block, datetime in *. lia.
  - unfold before_block. destruct (_ && _); repeat constructor.
  - apply StronglySorted_app_2; [|done|].
    + intros b1 b2 Hb1 Hb2%Hafter.
      destruct (Hbounds b1 Hb1) as [_ H2]. specialize (H2 l eq_refl).
      unfold block, datetime in *. lia.
    + unfold after_block. destruct (_ && _); repeat constructor.
Qed.

Lemma find_free_blocks_chronological_witness :
  non_overlapping standup_day ∧ Forall valid_span standup_day ∧
  ∃ blocks,
    _find_free_blocks (ist 20000 8 0) (ist 20000 8 0) standup_day 30 = Some blocks ∧
    chronological blocks.
Proof.
  assert (non_overlapping standup_day) as H1 by concrete_order.
  assert (Forall valid_span standup_day) as H2 by concrete_order.
  split; [exact H1|]. split; [exact H2|].
  exact (find_free_blocks_chronological _ _ standup_day 30 H1 H2).
Defined.

(** ** The classifier as a whole *)

Section RankingFacts.
Variable lower : string → string.

(** X6.
    The tier of an event does not depend on the events around it: ranking
    a concatenation gives, tier by tier, the concatenation of the
    rankings. *)
Theorem stack_rank_concat events1 events2 t :
  get_tier (stack_rank_meetings lower (events1 ++ events2)) t
  = get_tier (stack_rank_meetings lower events1) t
    ++ get_tier (stack_rank_meetings lower events2) t.
Proof. rewrite !stack_rank_meetings_get. by rewrite !List.filter_app. Qed.

Lemma tiers_Permutation (meetings : list CalendarEvent) :
  List.filter (λ e, bool_decide (tier_of lower e = Critical)) meetings
  ++ List.filter (λ e, bool_decide (tier_of lower e = Important)) meetings
  ++ List.filter (λ e, bool_decide (tier_of lower e = Moderate)) meetings
  ++ List.filter (λ e, bool_decide (tier_of lower e = Cancelable)) meetings
  ≡ₚ meetings.
Proof.
  induction meetings as [|e l IH]; [done|].
  cbn [List.filter]. destruct (tier_of lower e); cbn.
  - by constructor.
  - etrans; [symmetry; apply Permutation_middle|by constructor].
  - rewrite app_assoc.
    etrans; [symmetry; apply Permutation_middle|].
    rewrite <- app_assoc. by constructor.
  - rewrite 2!app_assoc.
    etrans; [symmetry; apply Permutation_middle|].
    rewrite <- 2!app_assoc. by constructor.
Qed.

(** X7.
    The four tiers together hold the meetings of the input, each as often as
    the input has it: no meeting is dropped and none is listed twice. Their
    sizes add up to the [total_meetings] of the schedule analysis. *)
Theorem stack_rank_complete now1 now2 events :
  let r := stack_rank_meetings lower events in
  critical r ++ important r ++ moderate r ++ cancelable r
    ≡ₚ List.filter is_meeting events
  ∧ ∃ a, analyze_schedule now1 now2 events = Some a ∧
         len (critical r) + len (important r) + len (moderate r)
         + len (cancelable r) = total_meetings a.
Proof.
  cbn zeta.
  assert (critical (stack_rank_meetings lower events)
          ++ important (stack_rank_meetings lower events)
          ++ moderate (stack_rank_meetings lower events)
          ++ cancelable (stack_rank_meetings lower events)
          ≡ₚ List.filter is_meeting events) as Hperm.
  { change (critical ?r) with (get_tier r Critical).
    change (important ?r) with (get_tier r Important).
    change (moderate ?r) with (get_tier r Moderate).
    change (cancelable ?r) with (get_tier r Cancelable).
    rewrite !stack_rank_meetings_get. apply tiers_Permutation. }
  split; [exact Hperm|].
  unfold analyze_schedule.
  rewrite find_free_blocks_spans, count_back_to_back_spans.
  cbn [mbind option_bind]. eexists. split; [reflexivity|].
  cbn [total_meetings]. apply Permutation_length in Hperm.
  rewrite !length_app in Hperm. unfold len. lia.
Qed.

(** X8.
    The rules are tried in order and the first that matches decides: a
    critical word puts a meeting in the critical tier whatever else its
    title holds; an important word does so for the important tier when no
    critical word is there; a moderate word, with neither of the former,
    makes it moderate, however short the meeting. *)
Theorem first_match_wins events e :
  e ∈ events →
  is_focus_block e = false →
  is_commute e = false →
  let r := stack_rank_meetings lower events in
  let title_lower := lower (title e) in
  (any_in critical_words title_lower = true → e ∈ critical r) ∧
  (any_in critical_words title_lower = false →
   any_in important_words title_lower = true → e ∈ important r) ∧
  (any_in critical_words title_lower = false →
   any_in important_words title_lower = false →
   any_in moderate_words title_lower = true → e ∈ moderate r).
Proof.
  intros He Hf Hc. cbn zeta.
  change (critical ?r) with (get_tier r Critical).
  change (important ?r) with (get_tier r Important).
  change (moderate ?r) with (get_tier r Moderate).
  rewrite !elem_of_stack_rank, is_meeting_true. unfold tier_of.
  split; [|split].
  - intros H1. by rewrite H1.
  - intros H1 H2. by rewrite H1, H2.
  - intros H1 H2 H3. by rewrite H1, H2, H3.
Qed.

(** X9.
    Ranking again the events of one tier leaves them all in that tier. *)
Theorem stack_rank_tier_stable events t t' :
  get_tier (stack_rank_meetings lower
              (get_tier (stack_rank_meetings lower events) t)) t'
  = if bool_decide (t = t') then get_tier (stack_rank_meetings lower events) t
    else [].
Proof.
  rewrite (stack_rank_meetings_get lower _ t').
  set (l := get_tier (stack_rank_meetings lower events) t).
  assert (∀ e, e ∈ l → is_meeting e = true ∧ tier_of lower e = t) as Hl.
  { intros e He. apply elem_of_stack_rank in He. tauto. }
  clearbody l. induction l as [|e l IH].
  - by case_bool_decide.
  - destruct (Hl e) as [Hm Ht]; [by left|].
    cbn [List.filter]. rewrite Hm. cbn [List.filter]. rewrite Ht.
    rewrite IH by (intros e' He'; apply Hl; by right).
    by case_bool_decide.
Qed.

End RankingFacts.

Lemma first_match_wins_witness :
  let e := ev "Quick sync on deploy" (ist 20000 16 0) (ist 20000 16 15) in
  e ∈ [e] ∧ is_focus_block e = false ∧ is_commute e = false ∧
  let r := stack_rank_meetings ascii_lower [e] in
  let title_lower := ascii_lower (title e) in
  (any_in critical_words title_lower = true → e ∈ critical r) ∧
  (any_in critical_words title_lower = false →
   any_in important_words title_lower = true → e ∈ important r) ∧
  (any_in critical_words title_lower = false →
   any_in important_words title_lower = false →
   any_in moderate_words title_lower = true → e ∈ moderate r).
Proof.
  cbn zeta.
  assert (ev "Quick sync on deploy" (ist 20000 16 0) (ist 20000 16 15)
          ∈ [ev "Quick sync on deploy" (ist 20000 16 0) (ist 20000 16 15)]) as H0
    by (apply elem_of_cons; by left).
  split; [exact H0|]. split; [reflexivity|]. split; [reflexivity|].
  exact (first_match_wins ascii_lower _ _ H0 eq_refl eq_refl).
Defined.

(** A 15-minute sync about a deploy is critical, neither moderate nor
    cancelable. *)
Example stack_rank_quick_sync_on_deploy :
  stack_rank_meetings ascii_lower
    [ev "Quick sync on deploy" (ist 20000 16 0) (ist 20000 16 15)]
  = {| critical := [ev "Quick sync on deploy" (ist 20000 16 0) (ist 20000 16 15)];
       important := []; moderate := []; cancelable := [] |}.
Proof. reflexivity. Qed.

(** ** Search by title *)

Lemma contains_empty s : contains "" s = true.
Proof. by destruct s. Qed.

Lemma append_cons c s r : (String c s ++ r)%string = String c (s ++ r)%string.
Proof. reflexivity. Qed.

Lemma append_empty r : (EmptyString ++ r)%string = r.
Proof. reflexivity. Qed.

Lemma prefix_app s r : String.prefix s (s ++ r) = true.
Proof.
  induction s as [|c s IH]; [by destruct r|].
  rewrite append_cons. cbn [String.prefix].
  destruct (Ascii.ascii_dec c c); [done|congruence].
Qed.

Lemma contains_prefix s r : contains s (s ++ r) = true.
Proof.
  destruct s as [|c s]; [apply contains_empty|].
  rewrite append_cons.
  change (contains (String c s) (String c (s ++ r)))
    with (String.prefix (String c s) (String c (s ++ r))
          || contains (String c s) (s ++ r)).
  by rewrite <- append_cons, prefix_app.
Qed.

(** X10.
    The search returns the first event, in list order, whose lowercased
    title contains the lowercased pattern, and nothing exactly when no title
    does. *)
Theorem find_event_by_title_first lower title_substring events :
  match find_event_by_title lower title_substring events with
  | Some e =>
      ∃ before after,
        events = before ++ e :: after ∧
        contains (lower title_substring) (lower (title e)) = true ∧
        ∀ e', e' ∈ before →
          contains (lower title_substring) (lower (title e')) = false
  | None =>
      ∀ e, e ∈ events →
        contains (lower title_substring) (lower (title e)) = false
  end.
Proof.
  induction events as [|x events IH]; cbn [find_event_by_title].
  - by intros e ?%elem_of_nil.
  - destruct (contains _ (lower (title x))) eqn:Hx.
    + exists [], events. split; [done|]. split; [done|]. by intros e' ?%elem_of_nil.
    + destruct (find_event_by_title lower title_substring events) as [e|].
      * destruct IH as (before & after & -> & He & Hbefore).
        exists (x :: before), after. split; [done|]. split; [done|].
        intros e' [->|He']%elem_of_cons; [done|by apply Hbefore].
      * intros e [->|He]%elem_of_cons; [done|by apply IH].
Qed.

(** X11.
    An empty pattern matches every title: the search then returns the
    first event of the day, so that [cmd_decline] and [cmd_reschedule]
    called with an empty title act on it. *)
Theorem find_event_by_title_empty lower events :
  lower "" = ""%string →
  find_event_by_title lower "" events = head events.
Proof.
  intros Hlower. destruct events as [|e events]; [done|].
  cbn [find_event_by_title head]. by rewrite Hlower, contains_empty.
Qed.

Lemma find_event_by_title_empty_witness :
  ascii_lower "" = ""%string ∧
  find_event_by_title ascii_lower "" standup_day = head standup_day.
Proof.
  split; [reflexivity|].
  exact (find_event_by_title_empty ascii_lower standup_day eq_refl).
Defined.

(** ** Display of durations *)

Lemma to_int_norm z : Z.to_int z = Decimal.norm (Z.to_int z).
Proof. by rewrite <- DecimalZ.to_of, DecimalZ.of_to. Qed.

Lemma str_int_of_string z : NilZero.int_of_string (str z) = Some (Z.to_int z).
Proof.
  unfold str. apply NilZero.isi; intros H; pose proof (to_int_norm z) as Hn;
    rewrite H in Hn; discriminate Hn.
Qed.

Lemma str_inj a b : str a = str b → a = b.
Proof.
  intros H. apply (f_equal NilZero.int_of_string) in H.
  rewrite !str_int_of_string in H. injection H as H.
  by apply DecimalZ.to_int_inj.
Qed.

Lemma string_of_uint_digits d : all_digits (NilEmpty.string_of_uint d) = true.
Proof. induction d; cbn; by rewrite ?IHd. Qed.

Lemma str_digits n : 0 <= n → all_digits (str n) = true.
Proof.
  intros Hn. unfold str. destruct n as [|p|p]; [done| |lia].
  cbn [Z.to_int NilZero.string_of_int]. unfold NilZero.string_of_uint.
  destruct (Pos.to_uint p); [done|apply string_of_uint_digits..].
Qed.

(** Two strings that start with digits and go on with a character that is
    not a digit agree on the digits, the character and the rest. *)
Lemma digits_split d1 d2 c1 c2 r1 r2 :
  all_digits d1 = true → all_digits d2 = true →
  is_digit c1 = false → is_digit c2 = false →
  (d1 ++ String c1 r1)%string = (d2 ++ String c2 r2)%string →
  d1 = d2 ∧ c1 = c2 ∧ r1 = r2.
Proof.
  intros H1 H2 Hc1 Hc2. revert d2 H2.
  induction d1 as [|x d1 IH]; intros [|y d2] H2 Heq;
    rewrite ?append_cons, ?append_empty in Heq; cbn [all_digits] in *.
  - by injection Heq.
  - injection Heq as -> _. apply andb_true_iff in H2 as [Hy _]. congruence.
  - injection Heq as -> _. apply andb_true_iff in H1 as [Hx _]. congruence.
  - injection Heq as -> Heq.
    apply andb_true_iff in H1 as [_ H1]. apply andb_true_iff in H2 as [_ H2].
    destruct (IH H1 d2 H2 Heq) as (-> & -> & ->). done.
Qed.

(** X12.
    Two different durations, none negative, are never displayed alike. *)
Theorem format_duration_injective m1 m2 :
  0 <= m1 → 0 <= m2 →
  format_duration m1 = format_duration m2 → m1 = m2.
Proof.
  intros H1 H2. unfold format_duration.
  pose proof (Z.div_mod m1 60 ltac:(lia)) as Hm1.
  pose proof (Z.div_mod m2 60 ltac:(lia)) as Hm2.
  pose proof (Z.mod_pos_bound m1 60 ltac:(lia)) as Hb1.
  pose proof (Z.mod_pos_bound m2 60 ltac:(lia)) as Hb2.
  pose proof (Z.div_pos m1 60 H1 ltac:(lia)) as Hd1.
  pose proof (Z.div_pos m2 60 H2 ltac:(lia)) as Hd2.
  pose proof (str_digits (m1 / 60) Hd1) as Dh1.
  pose proof (str_digits (m2 / 60) Hd2) as Dh2.
  pose proof (str_digits (m1 mod 60) ltac:(lia)) as Dm1.
  pose proof (str_digits (m2 mod 60) ltac:(lia)) as Dm2.
  destruct (Z.ltb_spec 0 (m1 / 60)), (Z.ltb_spec 0 (m1 mod 60)),
           (Z.ltb_spec 0 (m2 / 60)), (Z.ltb_spec 0 (m2 mod 60));
    intros Heq;
    change (?a ++ "h " ++ ?b ++ "m")%string
      with (a ++ String "h" (String " " (b ++ String "m" EmptyString)))%string in Heq;
    change (?a ++ "h")%string with (a ++ String "h" EmptyString)%string in Heq;
    change (?a ++ "m")%string with (a ++ String "m" EmptyString)%string in Heq;
    apply digits_split in Heq as (Hh & Hc & Hr); try done;
    try discriminate Hc; try discriminate Hr;
    apply str_inj in Hh;
    try (injection Hr as Hr; apply digits_split in Hr as (Hmi & _ & _); try done;
         apply str_inj in Hmi);
    lia.
Qed.

Lemma format_duration_injective_witness :
  0 <= 90 ∧ 0 <= 60 + 30 ∧ (format_duration 90 = format_duration (60 + 30) → 90 = 60 + 30).
Proof.
  assert (0 <= 90) as H1 by discriminate.
  assert (0 <= 60 + 30) as H2 by discriminate.
  split; [exact H1|]. split; [exact H2|].
  exact (format_duration_injective 90 (60 + 30) H1 H2).
Defined.

(** X13.
    A negative duration is displayed without its sign and without its whole
    hours: only [minutes % 60] is shown, so that -90 reads "30m". *)
Theorem format_duration_negative minutes :
  minutes < 0 →
  format_duration minutes = (str (minutes mod 60) ++ "m")%string
  ∧ 0 <= minutes mod 60 < 60
  ∧ format_duration minutes = format_duration (minutes mod 60).
Proof.
  intros Hneg. unfold format_duration.
  pose proof (Z.mod_pos_bound minutes 60 ltac:(lia)) as Hb.
  assert (minutes / 60 < 0) as Hd by (apply Z.div_lt_upper_bound; lia).
  rewrite (Z.mod_small (minutes mod 60) 60), (Z.div_small (minutes mod 60) 60) by lia.
  destruct (Z.ltb_spec 0 (minutes / 60)); [lia|]. done.
Qed.

Lemma format_duration_negative_witness :
  -90 < 0 ∧
  format_duration (-90) = (str (-90 mod 60) ++ "m")%string
  ∧ 0 <= -90 mod 60 < 60
  ∧ format_duration (-90) = format_duration (-90 mod 60).
Proof.
  assert (-90 < 0) as H by reflexivity.
  split; [exact H|]. exact (format_duration_negative (-90) H).
Defined.

Example format_duration_examples :
  map format_duration [0; 45; 60; 125; -90] = ["0m"; "45m"; "1h"; "2h 5m"; "30m"]%string.
Proof. reflexivity. Qed.

(** ** Response status: reading and writing *)

Lemma EventStatus_value_round_trip s :
  EventStatus_of_value (JStr (EventStatus_value s)) = Some s.
Proof. by destruct s. Qed.

(** X14.
    [update_event_status] changes the attendee list in one place only: the
    first attendee marked [self] gets the new response status, every other
    attendee and every other key stay as they were; when no attendee is
    marked [self] the list is left as it is. *)
Theorem update_attendees_first_self attendees new_status updated :
  update_attendees attendees new_status = Some updated →
  (existsb marked_self attendees = false ∧ updated = attendees)
  ∨ ∃ before d after,
      attendees = before ++ JDict d :: after ∧
      existsb marked_self before = false ∧
      marked_self (JDict d) = true ∧
      updated = before
        ++ JDict (<["responseStatus" := JStr (EventStatus_value new_status)]> d)
        :: after.
Proof.
  revert updated. induction attendees as [|a rest IH]; intros updated Hup.
  - left. by injection Hup as <-.
  - cbn [update_attendees] in Hup.
    destruct a as [| | | | |d]; try discriminate Hup.
    cbn [dict_get mbind option_bind] in Hup.
    destruct (truthy (default (JBool false) (d !! "self"))) eqn:Hself.
    + right. injection Hup as <-. exists [], d, rest.
      split; [done|]. split; [done|]. split; [|done].
      unfold marked_self. cbn [dict_get]. exact Hself.
    + destruct (update_attendees rest new_status) as [rest'|] eqn:Hrest;
        [|discriminate Hup].
      injection Hup as <-.
      assert (marked_self (JDict d) = false) as Hd
        by (unfold marked_self; cbn [dict_get]; exact Hself).
      destruct (IH rest' eq_refl) as [[Hnone ->]|(before & d' & after & -> & Hb & Hd' & ->)].
      * left. cbn [existsb]. by rewrite Hd, Hnone.
      * right. exists (JDict d :: before), d', after.
        split; [done|]. split; [cbn [existsb]; by rewrite Hd, Hb|]. done.
Qed.

Lemma update_attendees_first_self_witness :
  let updated :=
    [guest;
     JDict (<["email" := JStr "me@example.com"]>
            (<["self" := JBool true]>
             (<["responseStatus" := JStr "declined"]> ∅)))] in
  update_attendees [guest; myself] DECLINED = Some updated ∧
  ((existsb marked_self [guest; myself] = false ∧ updated = [guest; myself])
   ∨ ∃ before d after,
       [guest; myself] = before ++ JDict d :: after ∧
       existsb marked_self before = false ∧
       marked_self (JDict d) = true ∧
       updated = before
         ++ JDict (<["responseStatus" := JStr (EventStatus_value DECLINED)]> d)
         :: after).
Proof.
  cbn zeta.
  assert (update_attendees [guest; myself] DECLINED
          = Some [guest;
                  JDict (<["email" := JStr "me@example.com"]>
                         (<["self" := JBool true]>
                          (<["responseStatus" := JStr "declined"]> ∅)))]) as H
    by (vm_compute; reflexivity).
  split; [exact H|].
  exact (update_attendees_first_self [guest; myself] DECLINED _ H).
Defined.

(** X15.
    Round trip through the service's record: after [update_event_status]
    has rewritten the attendee list, the status [_parse_event] reads from it
    is the new status when an attendee is marked [self]; when none is, it is
    still the default the reading started from ([ACCEPTED]). *)
Theorem status_round_trip attendees new_status updated status :
  update_attendees attendees new_status = Some updated →
  _parse_event_status_loop updated status
  = Some (if existsb marked_self attendees then new_status else status).
Proof.
  revert updated. induction attendees as [|a rest IH]; intros updated Hup.
  - by injection Hup as <-.
  - cbn [update_attendees] in Hup.
    destruct a as [| | | | |d]; try discriminate Hup.
    cbn [dict_get mbind option_bind] in Hup.
    cbn [existsb]. unfold marked_self at 1. cbn [dict_get].
    destruct (truthy (default (JBool false) (d !! "self"))) eqn:Hself.
    + injection Hup as <-. cbn [orb _parse_event_status_loop dict_get mbind option_bind].
      rewrite lookup_insert_ne by done. rewrite Hself.
      rewrite lookup_insert_eq. cbn [default]. apply EventStatus_value_round_trip.
    + destruct (update_attendees rest new_status) as [rest'|] eqn:Hrest;
        [|discriminate Hup].
      injection Hup as <-.
      cbn [orb _parse_event_status_loop dict_get mbind option_bind].
      rewrite Hself. by apply IH.
Qed.

Lemma status_round_trip_witness :
  update_attendees [guest; myself] TENTATIVE
  = Some [guest;
          JDict (<["email" := JStr "me@example.com"]>
                 (<["self" := JBool true]>
                  (<["responseStatus" := JStr "tentative"]> ∅)))]
  ∧ _parse_event_status_loop
      [guest;
       JDict (<["email" := JStr "me@example.com"]>
              (<["self" := JBool true]>
               (<["responseStatus" := JStr "tentative"]> ∅)))] ACCEPTED
    = Some (if existsb marked_self [guest; myself] then TENTATIVE else ACCEPTED).
Proof.
  assert (update_attendees [guest; myself] TENTATIVE
          = Some [guest;
                  JDict (<["email" := JStr "me@example.com"]>
                         (<["self" := JBool true]>
                          (<["responseStatus" := JStr "tentative"]> ∅)))]) as H
    by (vm_compute; reflexivity).
  split; [exact H|].
  exact (status_round_trip [guest; myself] TENTATIVE _ ACCEPTED H).
Defined.

Lemma parse_loop_find attendees status :
  Forall (λ a, ∃ d, a = JDict d) attendees →
  _parse_event_status_loop attendees status
  = match List.find marked_self attendees with
    | Some (JDict d) =>
        EventStatus_of_value (default (JStr "accepted") (d !! "responseStatus"))
    | _ => Some status
    end.
Proof.
  induction 1 as [|a rest [d ->] _ IH]; [done|].
  cbn [_parse_event_status_loop List.find dict_get mbind option_bind].
  unfold marked_self at 1. cbn [dict_get].
  by destruct (truthy (default (JBool false) (d !! "self"))).
Qed.

(** X16.
    Reading the status of a record whose attendees are dictionaries: the
    first attendee marked [self] decides, later ones are not looked at, and
    its response status must be one of the four known values ("accepted"
    when it has none), or the reading fails; with no attendee marked
    [self] the status reads as accepted. *)
Theorem parse_event_status_first_self event_data attendees :
  event_data !! "attendees" = Some (JList attendees) →
  Forall (λ a, ∃ d, a = JDict d) attendees →
  _parse_event_status (JDict event_data)
  = match List.find marked_self attendees with
    | Some (JDict d) =>
        EventStatus_of_value (default (JStr "accepted") (d !! "responseStatus"))
    | _ => Some ACCEPTED
    end.
Proof.
  intros Hatt Hdicts.
  unfold _parse_event_status. cbn [dict_get mbind option_bind].
  rewrite Hatt. cbn [default from_option Datatypes.id py_iter mbind option_bind].
  by apply parse_loop_find.
Qed.

Lemma parse_event_status_first_self_witness :
  let event_data : gmap string json :=
    <["attendees" := JList [guest; myself; guest]]> ∅ in
  _parse_event_status (JDict event_data)
  = match List.find marked_self [guest; myself; guest] with
    | Some (JDict d) =>
        EventStatus_of_value (default (JStr "accepted") (d !! "responseStatus"))
    | _ => Some ACCEPTED
    end
  ∧ _parse_event_status (JDict event_data) = Some NEEDS_ACTION.
Proof.
  cbn zeta. split; [|vm_compute; reflexivity].
  apply (parse_event_status_first_self _ [guest; myself; guest]).
  - vm_compute. reflexivity.
  - repeat constructor; eexists; reflexivity.
Defined.

Example parse_event_status_defaults :
  _parse_event_status (JDict ∅) = Some ACCEPTED
  ∧ _parse_event_status (JDict (<["attendees" := JList [guest]]> ∅)) = Some ACCEPTED
  ∧ _parse_event_status
      (JDict (<["attendees" :=
                  JList [JDict (<["self" := JBool true]>
                                (<["responseStatus" := JStr "maybe"]> ∅))]]> ∅))
    = None.
Proof. repeat split; vm_compute; reflexivity. Qed.

(** ** Requests to the service *)

Lemma update_attendees_unmarked attendees new_status :
  Forall (λ a, ∃ d, a = JDict d) attendees →
  existsb marked_self attendees = false →
  update_attendees attendees new_status = Some attendees.
Proof.
  induction 1 as [|a rest [d ->] _ IH]; [done|].
  cbn [existsb]. intros [Ha Hrest]%orb_false_iff.
  cbn [update_attendees dict_get mbind option_bind].
  unfold marked_self in Ha. cbn [dict_get] in Ha. rewrite Ha.
  by rewrite (IH Hrest).
Qed.

(** X17.
    Changing the status of an event on which no attendee is marked [self]
    (an event of one's own without guests, say) changes nothing: the patch
    sent to the service carries the attendee list as it was, and the call
    reports success whenever the service accepts that patch. *)
Theorem update_event_status_not_attending events_get events_patch
    event_id new_status send_notification event attendees :
  events_get event_id = Some (JDict event) →
  event !! "attendees" = Some (JList attendees) →
  Forall (λ a, ∃ d, a = JDict d) attendees →
  existsb marked_self attendees = false →
  update_event_status events_get events_patch event_id new_status send_notification
  = match events_patch event_id (JDict {["attendees" := JList attendees]})
            (if send_notification then "all" else "none") with
    | Some _ => true
    | None => false
    end.
Proof.
  intros Hget Hatt Hdicts Hnone. unfold update_event_status.
  rewrite Hget. cbn [mbind option_bind dict_get]. rewrite Hatt.
  cbn [default from_option Datatypes.id py_iter mbind option_bind].
  rewrite (update_attendees_unmarked _ _ Hdicts Hnone).
  cbn [mbind option_bind]. by destruct (events_patch _ _ _).
Qed.

Lemma update_event_status_not_attending_witness :
  let event : gmap string json :=
    <["id" := JStr "evt"]> (<["attendees" := JList [guest]]> ∅) in
  let events_get := λ _ : string, Some (JDict event) in
  let events_patch := λ (_ : string) (body : json) (_ : string), Some body in
  update_event_status events_get events_patch "evt" DECLINED true
  = match events_patch "evt" (JDict {["attendees" := JList [guest]]}) "all" with
    | Some _ => true
    | None => false
    end.
Proof.
  cbn zeta.
  apply (update_event_status_not_attending _ _ "evt" DECLINED true
           (<["id" := JStr "evt"]> (<["attendees" := JList [guest]]> ∅)) [guest]).
  - reflexivity.
  - vm_compute. reflexivity.
  - repeat constructor. unfold guest. eexists. reflexivity.
  - vm_compute. reflexivity.
Defined.

Lemma get_events_in_range_loop_mapM _parse_event items include_declined events :
  get_events_in_range_loop _parse_event items include_declined events
  = (λ parsed,
       events ++ List.filter (λ e, include_declined || not_declined e) parsed)
    <$> mapM _parse_event items.
Proof.
  revert events. induction items as [|x items IH]; intros events.
  - cbn. by rewrite app_nil_r.
  - cbn [get_events_in_range_loop mapM].
    destruct (_parse_event x) as [e|]; [|done].
    cbn [mbind option_bind]. rewrite IH.
    destruct (mapM _parse_event items) as [parsed|]; [|done].
    cbn [fmap option_fmap option_map mbind option_bind mret option_ret List.filter].
    f_equal. fold (not_declined e).
    destruct (include_declined || not_declined e); by rewrite <- ?app_assoc.
Qed.

(** X18.
    The two modes of [get_events_in_range]. With declined events included,
    the result is every item of the service's answer, read in order (no
    [items] key: no event). Without them, it is the same list minus the
    events the user declined, so it holds no declined event; the events
    are read before they are dropped, so an item that cannot be read fails
    the call in both modes. *)
Theorem get_events_in_range_modes _parse_event events_result :
  get_events_in_range _parse_event events_result true
  = (items ← dict_get events_result "items" (JList []);
     items ← py_iter items;
     mapM _parse_event items)
  ∧ get_events_in_range _parse_event events_result false
    = List.filter not_declined <$> get_events_in_range _parse_event events_result true
  ∧ ∀ events,
      get_events_in_range _parse_event events_result false = Some events →
      Forall (λ e, status e ≠ DECLINED) events.
Proof.
  assert (get_events_in_range _parse_event events_result false
          = List.filter not_declined
            <$> get_events_in_range _parse_event events_result true) as Hmodes.
  { unfold get_events_in_range.
    destruct (dict_get events_result "items" (JList [])) as [items|]; [|done].
    cbn [mbind option_bind].
    destruct (py_iter items) as [l|]; [|done]. cbn [mbind option_bind].
    rewrite !get_events_in_range_loop_mapM.
    destruct (mapM _parse_event l) as [parsed|]; [|done].
    cbn [fmap option_fmap option_map app orb]. by rewrite List.filter_true. }
  split; [|split; [exact Hmodes|]].
  - unfold get_events_in_range.
    destruct (dict_get events_result "items" (JList [])) as [items|]; [|done].
    cbn [mbind option_bind].
    destruct (py_iter items) as [l|]; [|done]. cbn [mbind option_bind].
    rewrite get_events_in_range_loop_mapM.
    destruct (mapM _parse_event l) as [parsed|]; [|done].
    cbn [fmap option_fmap option_map app orb]. by rewrite List.filter_true.
  - intros events Hev. rewrite Hmodes in Hev.
    destruct (get_events_in_range _parse_event events_result true) as [all|];
      [|discriminate Hev].
    injection Hev as <-. apply Forall_forall.
    intros e [_ He]%elem_of_filter_bool. unfold not_declined in He.
    apply negb_true_iff, bool_decide_eq_false in He. done.
Qed.

(** X19.
    The blocks the agent creates are the blocks the analysis recognises.
    Whatever title is given, the request [create_focus_block] sends carries
    a summary that makes [is_focus_block] true, so an event with that title
    is never ranked as a meeting; it carries colour 9 and a description that
    is never empty. The request of [create_commute_block] carries a summary
    that makes [is_commute] true, and colour 8. *)
Theorem created_blocks_recognised isoformat focus_title start_time end_time
    description :
  (∃ body summary description',
     (∀ events_insert _parse_event,
        create_focus_block events_insert _parse_event isoformat
          focus_title start_time end_time description
        = (events_insert (JDict body) ≫= _parse_event)) ∧
     body !! "summary" = Some (JStr summary) ∧
     (∀ e, title e = summary → is_focus_block e = true) ∧
     (∀ lower events e t,
        title e = summary →
        e ∉ get_tier (stack_rank_meetings lower events) t) ∧
     body !! "colorId" = Some (JStr "9") ∧
     body !! "description" = Some (JStr description') ∧
     description' ≠ ""%string)
  ∧ (∃ body summary,
       (∀ events_insert _parse_event,
          create_commute_block events_insert _parse_event isoformat
            start_time end_time description
          = (events_insert (JDict body) ≫= _parse_event)) ∧
       body !! "summary" = Some (JStr summary) ∧
       (∀ e, title e = summary → is_commute e = true) ∧
       body !! "colorId" = Some (JStr "8")).
Proof.
  assert (∀ e, title e = ("🎯 Focus Block: " ++ focus_title)%string →
               is_focus_block e = true) as Hfocus.
  { intros e He. unfold is_focus_block. rewrite He.
    change ("🎯 Focus Block: " ++ focus_title)%string
      with ("🎯" ++ (" Focus Block: " ++ focus_title))%string.
    by rewrite contains_prefix, orb_true_r. }
  split.
  - eexists _, _, _. split; [intros; reflexivity|].
    split; [|split; [exact Hfocus|split; [|split; [|split]]]].
    + unfold create_event_body. cbn [str_truthy str_or].
      destruct (negb _); by simplify_map_eq.
    + intros lower events e t He (_ & [Hf _]%is_meeting_true & _)%elem_of_stack_rank.
      rewrite (Hfocus e He) in Hf. discriminate Hf.
    + unfold create_event_body. by simplify_map_eq.
    + unfold create_event_body.
      assert (str_truthy
                (Some (str_or description
                         ("Deep work session on " ++ focus_title)%string)) = true)
        as Htruthy.
      { unfold str_truthy, str_or. destruct description as [d|]; [|done].
        destruct (String.eqb d "") eqn:Hd; [done|]. by rewrite Hd. }
      rewrite Htruthy. by simplify_map_eq.
    + unfold str_or. destruct description as [d|]; [|done].
      destruct (String.eqb_spec d ""); [done|]. done.
  - eexists _, _. split; [intros; reflexivity|].
    split; [|split].
    + unfold create_event_body. destruct (str_truthy description); by simplify_map_eq.
    + intros e He. unfold is_commute. by rewrite He.
    + unfold create_event_body. by simplify_map_eq.
Qed.

(** ** Rescheduling *)

Lemma set_dateTime_lookup event key value event' :
  set_dateTime event key value = Some event' →
  ∃ d, event !! key = Some (JDict d) ∧
       event' = <[key := JDict (<["dateTime" := JStr value]> d)]> event.
Proof.
  unfold set_dateTime. destruct (event !! key) as [[| | | | |d]|]; try done.
  intros [= <-]. by exists d.
Qed.

Lemma append_empty_r s : (s ++ EmptyString)%string = s.
Proof. induction s as [|c s IH]; [done|]. by rewrite append_cons, IH. Qed.

(** X20.
    What [reschedule_event] sends back to the service, when it gets that
    far: the fetched record in which only the [dateTime] of [start] and of
    [end] and, with a message, the description have changed. Every other key
    of the record, and every other key under [start] and [end], is sent as
    it was fetched; without a message the description is untouched; with a
    message the new description starts with the message and ends with the
    text of the previous description, which is never dropped. *)
Theorem reschedule_event_body_keeps isoformat format_value event new_start new_end
    message body :
  reschedule_event_body isoformat format_value event new_start new_end message
  = Some body →
  ∃ fetched ds de,
    event = JDict fetched ∧
    fetched !! "start" = Some (JDict ds) ∧
    fetched !! "end" = Some (JDict de) ∧
    body !! "start" = Some (JDict (<["dateTime" := JStr (isoformat new_start)]> ds)) ∧
    body !! "end" = Some (JDict (<["dateTime" := JStr (isoformat new_end)]> de)) ∧
    (∀ key, key ≠ "start" → key ≠ "end" → key ≠ "description" →
            body !! key = fetched !! key) ∧
    (str_truthy message = false → body !! "description" = fetched !! "description") ∧
    (∀ text, message = Some text → text ≠ ""%string →
       ∃ tail,
         body !! "description" = Some (JStr ("Rescheduled: " ++ text ++ tail)) ∧
         (tail = ""%string ∧
          truthy (default (JStr "") (fetched !! "description")) = false
          ∨ tail = (newline ++ newline
                    ++ format_value (default (JStr "") (fetched !! "description")))%string)).
Proof.
  unfold reschedule_event_body. destruct event as [| | | | |fetched]; try done.
  destruct (set_dateTime fetched "start" (isoformat new_start)) as [e1|] eqn:H1;
    [|done].
  cbn [mbind option_bind].
  destruct (set_dateTime e1 "end" (isoformat new_end)) as [e2|] eqn:H2; [|done].
  cbn [mbind option_bind]. intros Hbody.
  apply set_dateTime_lookup in H1 as (ds & Hds & ->).
  apply set_dateTime_lookup in H2 as (de & Hde & ->).
  rewrite lookup_insert_ne in Hde by done.
  exists fetched, ds, de. split; [done|]. split; [done|]. split; [done|].
  assert (∀ e2 : gmap string json,
            (body = e2 ∨ ∃ v, body = <["description" := v]> e2) →
            ∀ key, key ≠ "description" → body !! key = e2 !! key) as Hother.
  { intros e2 [->|[v ->]] key Hkey; [done|]. by rewrite lookup_insert_ne. }
  set (e2 := <["end" := JDict (<["dateTime" := JStr (isoformat new_end)]> de)]>
               (<["start" := JDict (<["dateTime" := JStr (isoformat new_start)]> ds)]>
                  fetched)) in *.
  assert (e2 !! "description" = fetched !! "description") as Hdesc
    by (unfold e2; by rewrite !lookup_insert_ne).
  assert (body = e2 ∨ ∃ v, body = <["description" := v]> e2) as Hshape.
  { destruct (str_truthy message); injection Hbody as <-; eauto. }
  split; [|split; [|split; [|split]]].
  - rewrite (Hother e2 Hshape) by done. unfold e2.
    rewrite lookup_insert_ne by done. by rewrite lookup_insert_eq.
  - rewrite (Hother e2 Hshape) by done. unfold e2. by rewrite lookup_insert_eq.
  - intros key Hs He Hd. rewrite (Hother e2 Hshape) by done. unfold e2.
    by rewrite !lookup_insert_ne.
  - intros Hno. rewrite Hno in Hbody. injection Hbody as <-. exact Hdesc.
  - intros text -> Htext.
    assert (str_truthy (Some text) = true) as Hyes.
    { cbn. by destruct (String.eqb_spec text ""). }
    rewrite Hyes in Hbody. injection Hbody as <-.
    rewrite lookup_insert_eq, Hdesc. cbn [default from_option Datatypes.id].
    destruct (truthy (from_option Datatypes.id (JStr "") (fetched !! "description")))
      eqn:Htruthy.
    + eexists. split; [reflexivity|]. by right.
    + exists ""%string. split; [|by left]. by rewrite append_empty_r.
Qed.

Lemma reschedule_event_body_keeps_witness :
  reschedule_event_body str text_of (JDict sync_record) 10 20 (Some "moved"%string)
  = Some sync_record_moved
  ∧ ∃ fetched ds de,
      JDict sync_record = JDict fetched ∧
      fetched !! "start" = Some (JDict ds) ∧
      fetched !! "end" = Some (JDict de) ∧
      sync_record_moved !! "start"
      = Some (JDict (<["dateTime" := JStr (str 10)]> ds)) ∧
      sync_record_moved !! "end"
      = Some (JDict (<["dateTime" := JStr (str 20)]> de)) ∧
      (∀ key, key ≠ "start" → key ≠ "end" → key ≠ "description" →
              sync_record_moved !! key = fetched !! key) ∧
      (str_truthy (Some "moved"%string) = false →
       sync_record_moved !! "description" = fetched !! "description") ∧
      (∀ text, Some "moved"%string = Some text → text ≠ ""%string →
         ∃ tail,
           sync_record_moved !! "description"
           = Some (JStr ("Rescheduled: " ++ text ++ tail)) ∧
           (tail = ""%string ∧
            truthy (default (JStr "") (fetched !! "description")) = false
            ∨ tail = (newline ++ newline
                      ++ text_of (default (JStr "") (fetched !! "description")))%string)).
Proof.
  assert (reschedule_event_body str text_of (JDict sync_record) 10 20
            (Some "moved"%string) = Some sync_record_moved) as H
    by (vm_compute; reflexivity).
  split; [exact H|].
  exact (reschedule_event_body_keeps str text_of (JDict sync_record) 10 20
           (Some "moved"%string) sync_record_moved H).
Defined.
